(** * inv_pit: the inverse probability integral transform of [src/inv_pit/main.py]

    The class [InversePIT] keeps one attribute, [_cdf_map], and has four
    methods: [fit_from_cdf], [fit_from_pdf], [transform_cdf], [transform_pdf].
    They work on numpy arrays of floats, which Python passes by reference and
    which [fit_from_cdf] updates in place ([cdf /= cdf[-1]]).

    The embedding has three layers.
    - [Number]: the arithmetic the code is written in, IEEE binary64
      ([float64]), given here by the Standard Library's [spec_float] at
      precision 53.
    - [numpy], [scipy]: the library calls the methods make (np.diff, np.cumsum,
      np.isclose, np.gradient with edge_order=2, cumulative_trapezoid,
      interp1d with kind="linear" and fill_value="extrapolate"), on
      one-dimensional data.
    - [InversePIT] itself: a state-and-exception monad over a store of arrays,
      so that aliasing and in-place updates are those of the source.

    [interp_kind] is left at its default, "linear". Numerical warnings are not
    part of the model. *)

From Stdlib Require Import ZArith Bool String Lia.
From Stdlib Require Import Floats.SpecFloat.
From stdpp Require Import base option list.

Local Open Scope Z_scope.

(** ** The arithmetic interface *)

Class Number (F : Type) := {
  zero : F;            (* 0.0 *)
  one : F;             (* 1.0 *)
  two : F;             (* 2.0 *)
  half : F;            (* 0.5 *)
  three_halves : F;    (* 1.5 *)
  rtol : F;            (* 1e-5, np.isclose's default *)
  atol : F;            (* 1e-8, np.isclose's default *)
  fadd : F -> F -> F;
  fsub : F -> F -> F;
  fmul : F -> F -> F;
  fdiv : F -> F -> F;
  fopp : F -> F;
  fabs : F -> F;
  feq : F -> F -> bool;   (* ==, false on NaN *)
  flt : F -> F -> bool;   (* <,  false on NaN *)
  fle : F -> F -> bool;   (* <=, false on NaN *)
  isfinite : F -> bool;
  isnan : F -> bool
}.

Declare Scope num_scope.
Delimit Scope num_scope with num.
Infix "+" := fadd : num_scope.
Infix "-" := fsub : num_scope.
Infix "*" := fmul : num_scope.
Infix "/" := fdiv : num_scope.
Notation "- x" := (fopp x) : num_scope.

(** *** IEEE binary64 *)

Module Binary64.

Definition prec : Z := 53.
Definition emax : Z := 1024.

Abbreviation float64 := spec_float.

(** [m * 2^e], rounded to nearest even: how the literals are written. *)
Definition b64 (m e : Z) : float64 := binary_normalize prec emax m e false.

Definition nan : float64 := S754_nan.
Definition inf : float64 := S754_infinity false.

Definition f_isfinite (x : float64) : bool :=
  match x with
  | S754_zero _ | S754_finite _ _ _ => true
  | S754_infinity _ | S754_nan => false
  end.

Definition f_isnan (x : float64) : bool :=
  match x with
  | S754_nan => true
  | _ => false
  end.

(** A finite number other than zero. *)
Definition finite_nonzero (x : float64) : bool :=
  match x with
  | S754_finite _ _ _ => true
  | _ => false
  end.

(** Not below zero: [+0.], [-0.], the positive numbers, [+inf]; NaN, which
    compares with nothing, counts as well. *)
Definition not_negative (x : float64) : bool := negb (SFltb x (S754_zero false)).

(** A zero of either sign, or NaN: the difference of two equal numbers. *)
Definition zero_or_nan (x : float64) : bool :=
  match x with
  | S754_zero _ | S754_nan => true
  | _ => false
  end.

(** Two infinities of opposite signs, or a NaN. *)
Definition cancelling (a b : float64) : bool :=
  match a, b with
  | S754_nan, _ | _, S754_nan => true
  | S754_infinity s, S754_infinity s' => xorb s s'
  | _, _ => false
  end.

Definition f_one : float64 := Eval vm_compute in b64 1 0.
Definition f_two : float64 := Eval vm_compute in b64 2 0.
Definition f_half : float64 := Eval vm_compute in b64 1 (-1).
Definition f_three_halves : float64 := Eval vm_compute in b64 3 (-1).
(** [1e-5] and [1e-8]: the quotients of two exactly representable integers,
    correctly rounded, are the doubles nearest to the decimal literals. *)
Definition f_rtol : float64 :=
  Eval vm_compute in SFdiv prec emax (b64 1 0) (b64 100000 0).
Definition f_atol : float64 :=
  Eval vm_compute in SFdiv prec emax (b64 1 0) (b64 100000000 0).

#[export] Instance float64_number : Number float64 := {|
  zero := S754_zero false;
  one := f_one;
  two := f_two;
  half := f_half;
  three_halves := f_three_halves;
  rtol := f_rtol;
  atol := f_atol;
  fadd := SFadd prec emax;
  fsub := SFsub prec emax;
  fmul := SFmul prec emax;
  fdiv := SFdiv prec emax;
  fopp := SFopp;
  fabs := SFabs;
  feq := SFeqb;
  flt := SFltb;
  fle := SFleb;
  isfinite := f_isfinite;
  isnan := f_isnan
|}.





End Binary64.

(** ** Exceptions and results *)

Inductive exn :=
  | AssertionError              (* a failed [assert] *)
  | RuntimeError (msg : string) (* [raise RuntimeError(msg)] *)
  | IndexError                  (* an index out of bounds *)
  | ValueError.                 (* raised inside numpy or scipy *)

(** [Stuck] marks what the embedding does not cover: a reference to no array,
    and arrays that are not one-dimensional in [transform_pdf]. *)
Inductive outcome (A : Type) :=
  | Ok (a : A)
  | Raise (e : exn)
  | Stuck.
Arguments Ok {A} a.
Arguments Raise {A} e.
Arguments Stuck {A}.

(** ** numpy, on one-dimensional data *)

Module numpy.
Section numpy.
Context {F : Type} `{Number F}.
Local Open Scope num_scope.

(** [a[i]] where the index is in range; a negative index counts from the
    end. *)
Definition item (a : list F) (i : Z) : F :=
  nth (Z.to_nat (if (i <? 0)%Z then (Z.of_nat (length a) + i)%Z else i)) a zero.

(** [np.diff(a)]: [a[1:] - a[:-1]]. *)
Definition diff (a : list F) : list F := zip_with fsub (tail a) a.

(** [np.cumsum(a)]: a running sum, from left to right. *)
Fixpoint accumulate (acc : F) (a : list F) : list F :=
  match a with
  | [] => []
  | t :: a' => let s := acc + t in s :: accumulate s a'
  end.

Definition cumsum (a : list F) : list F :=
  match a with
  | [] => []
  | t :: a' => t :: accumulate t a'
  end.

(** [np.isclose(a, b)] with the default [rtol], [atol] and [equal_nan]:
    [(abs(a - b) <= atol + rtol * abs(b)) & isfinite(b) | (a == b)]. *)
Definition isclose (a b : F) : bool :=
  (fle (fabs (a - b)) (atol + rtol * fabs b) && isfinite b) || feq a b.

(** The comparison numpy sorts and searches floats with, NaN last:
    [a < b || (b != b && a == a)]. *)
Definition less (a b : F) : bool := flt a b || (negb (feq b b) && feq a a).

(** [np.searchsorted(a, v)] (side="left") on an array sorted by [less]: the
    number of leading elements less than [v]. *)
Fixpoint searchsorted (a : list F) (v : F) : nat :=
  match a with
  | [] => 0%nat
  | e :: a' => if less e v then S (searchsorted a' v) else 0%nat
  end.

(** [a * f0 + b * f1 + c * f2], the three-point formula of [np.gradient]. *)
Definition stencil (a b c f0 f1 f2 : F) : F := a * f0 + b * f1 + c * f2.

(** [out[1:-1]] for a scalar spacing [dx]:
    [(f[2:] - f[:-2]) / (2. * dx)]. *)
Fixpoint interior_uniform (dx : F) (f : list F) : list F :=
  match f with
  | f0 :: ((_ :: f2 :: _) as f') =>
      (f2 - f0) / (two * dx) :: interior_uniform dx f'
  | _ => []
  end.

(** [out[1:-1]] for an array of spacings, [dx1 = d[0:-1]], [dx2 = d[1:]]:
    [a = -(dx2)/(dx1 * (dx1 + dx2))], [b = (dx2 - dx1) / (dx1 * dx2)],
    [c = dx1 / (dx2 * (dx1 + dx2))]. *)
Definition interior_point (dx1 dx2 f0 f1 f2 : F) : F :=
  stencil ((- dx2) / (dx1 * (dx1 + dx2)))
          ((dx2 - dx1) / (dx1 * dx2))
          (dx1 / (dx2 * (dx1 + dx2)))
          f0 f1 f2.

Fixpoint interior (d f : list F) : list F :=
  match d, f with
  | dx1 :: ((dx2 :: _) as d'), f0 :: ((f1 :: f2 :: _) as f') =>
      interior_point dx1 dx2 f0 f1 f2 :: interior d' f'
  | _, _ => []
  end.

(** [out[0]], second-order edge: [dx1 = d[0]], [dx2 = d[1]]. *)
Definition first_edge (dx1 dx2 f0 f1 f2 : F) : F :=
  stencil ((- (two * dx1 + dx2)) / (dx1 * (dx1 + dx2)))
          ((dx1 + dx2) / (dx1 * dx2))
          ((- dx1) / (dx2 * (dx1 + dx2)))
          f0 f1 f2.

(** [out[-1]], second-order edge: [dx1 = d[-2]], [dx2 = d[-1]], on
    [f[-3]], [f[-2]], [f[-1]]. *)
Definition last_edge (dx1 dx2 f3 f2 f1 : F) : F :=
  stencil (dx2 / (dx1 * (dx1 + dx2)))
          ((- (dx2 + dx1)) / (dx1 * dx2))
          ((two * dx2 + dx1) / (dx2 * (dx1 + dx2)))
          f3 f2 f1.

Definition first_edge_uniform (dx f0 f1 f2 : F) : F :=
  stencil ((- three_halves) / dx) (two / dx) ((- half) / dx) f0 f1 f2.

Definition last_edge_uniform (dx f3 f2 f1 : F) : F :=
  stencil (half / dx) ((- two) / dx) (three_halves / dx) f3 f2 f1.

(** [(diffx == diffx[0]).all()]: the spacing is constant. *)
Definition constant_spacing (d0 : F) (d : list F) : bool :=
  forallb (fun v => feq v d0) d.

(** [np.gradient(f, x, edge_order=2)] for one-dimensional [f] and [x]:
    the length of [x] is checked, [diffx[0]] is read, the spacing is tested
    for being constant, then [f] must have [edge_order + 1] entries. *)
Definition gradient (f x : list F) : outcome (list F) :=
  if negb (length x =? length f)%nat then Raise ValueError
  else
    let d := diff x in
    match d with
    | [] => Raise IndexError
    | d0 :: _ =>
        if (length f <? 3)%nat then Raise ValueError
        else if constant_spacing d0 d then
          Ok (first_edge_uniform d0 (item f 0) (item f 1) (item f 2)
                :: interior_uniform d0 f
                ++ [last_edge_uniform d0 (item f (-3)) (item f (-2)) (item f (-1))])
        else
          Ok (first_edge (item d 0) (item d 1) (item f 0) (item f 1) (item f 2)
                :: interior d f
                ++ [last_edge (item d (-2)) (item d (-1))
                      (item f (-3)) (item f (-2)) (item f (-1))])
    end.

End numpy.
End numpy.

(** ** scipy *)

Module scipy.
Section scipy.
Context {F : Type} `{Number F}.
Local Open Scope num_scope.

(** [scipy.integrate.cumulative_trapezoid(y, x, initial=0)] for
    one-dimensional [y] and [x]:
    [d = np.diff(x)], then
    [np.cumsum(d * (y[1:] + y[:-1]) / 2.0)] with [0.] put in front. *)
Definition trapezoids (y x : list F) : list F :=
  zip_with (fun d s => d * s / two) (numpy.diff x) (zip_with fadd (tail y) y).

Definition cumtrapz (y x : list F) : list F :=
  zero :: numpy.cumsum (trapezoids y x).

Definition cumulative_trapezoid (y x : list F) : outcome (list F) :=
  match y with
  | [] => Raise ValueError        (* at least one point is required *)
  | _ :: _ =>
      if negb (length (numpy.diff x) =? length y - 1)%nat
      then Raise ValueError       (* x must have the length of y *)
      else Ok (cumtrapz y x)
  end.

(** [scipy.interpolate.interp1d(x, y, kind="linear", bounds_error=False,
    fill_value="extrapolate")]: the object keeps copies of [x] and [y],
    sorted by [x] with a stable sort ([np.argsort(x, kind="mergesort")]). *)
Record interp1d := { interp_x : list F; interp_y : list F }.

Fixpoint insert_knot (p : F * F) (l : list (F * F)) : list (F * F) :=
  match l with
  | [] => [p]
  | q :: l' =>
      if numpy.less (fst q) (fst p) then q :: insert_knot p l'
      else p :: l
  end.

(** A stable sort by the first component; the result of a stable sort does
    not depend on the algorithm. *)
Definition sort_knots (l : list (F * F)) : list (F * F) :=
  foldr insert_knot [] l.

Definition sorted_interp1d (x y : list F) : interp1d :=
  let knots := sort_knots (zip x y) in
  {| interp_x := fst <$> knots; interp_y := snd <$> knots |}.

(** The constructor: [x] and [y] must be equal in length, and a linear
    interpolant needs at least one entry. Values are not checked: knots at
    NaN or at repeated abscissae are accepted. *)
Definition new_interp1d (x y : list F) : outcome interp1d :=
  if negb (length x =? length y)%nat then Raise ValueError
  else if (length x <? 1)%nat then Raise ValueError
  else Ok (sorted_interp1d x y).

(** [interp1d._call_linear] at one point:
    [hi = searchsorted(x, x_new).clip(1, len(x) - 1)], [lo = hi - 1],
    [slope = (y_hi - y_lo) / (x_hi - x_lo)],
    [y_new = slope * (x_new - x_lo) + y_lo].
    No bounds are checked ([fill_value="extrapolate"]). *)
Definition call_linear (f : interp1d) (x_new : F) : F :=
  let n := Z.of_nat (length (interp_x f)) in
  let hi := Z.min (Z.max (Z.of_nat (numpy.searchsorted (interp_x f) x_new)) 1) (n - 1) in
  let lo := (hi - 1)%Z in
  let x_lo := numpy.item (interp_x f) lo in
  let x_hi := numpy.item (interp_x f) hi in
  let y_lo := numpy.item (interp_y f) lo in
  let y_hi := numpy.item (interp_y f) hi in
  let slope := (y_hi - y_lo) / (x_hi - x_lo) in
  slope * (x_new - x_lo) + y_lo.

(** [interp1d.__call__] on an array of points. *)
Definition call (f : interp1d) (x_new : list F) : list F :=
  call_linear f <$> x_new.

End scipy.
Arguments interp1d F : clear implicits.
End scipy.

(** ** The store, and the class [InversePIT] *)

(** Python passes arrays by reference: a reference is an index into the
    store. *)
Abbreviation ref := nat.

Section InversePIT.
Context {F : Type} `{Number F}.
Local Open Scope num_scope.

(** A numpy array: its shape and its entries in row-major order. A
    one-dimensional array of [n] entries has shape [[n]]. *)
Record ndarray := { shape : list nat; data : list F }.

Definition ndim (a : ndarray) : nat := length (shape a).

(** The one-dimensional array of the entries [l]. *)
Definition array (l : list F) : ndarray := {| shape := [length l]; data := l |}.

(** The shape agrees with the number of entries. *)
Definition wf_array (a : ndarray) : Prop :=
  length (data a) = foldr Nat.mul 1%nat (shape a).

(** The instance: [_cdf_map] is [None] until a fit; [interp1d] copies the
    arrays it is built from, so the attribute holds values, not references. *)
Record InversePIT := { _cdf_map : option (scipy.interp1d F) }.

(** [InversePIT()]. *)
Definition new_InversePIT : InversePIT := {| _cdf_map := None |}.

Record world := { self : InversePIT; heap : list ndarray }.

Definition M (A : Type) : Type := world -> outcome A * world.

Definition ret {A} (a : A) : M A := fun w => (Ok a, w).
Definition bind {A B} (c : M A) (k : A -> M B) : M B :=
  fun w =>
    match c w with
    | (Ok a, w') => k a w'
    | (Raise e, w') => (Raise e, w')
    | (Stuck, w') => (Stuck, w')
    end.
Definition raise {A} (e : exn) : M A := fun w => (Raise e, w).
Definition stuck {A} : M A := fun w => (Stuck, w).
Definition lift {A} (o : outcome A) : M A := fun w => (o, w).

#[global] Instance M_ret : MRet M := @ret.
#[global] Instance M_bind : MBind M := fun A B k c => bind c k.

Definition deref (r : ref) : M ndarray :=
  fun w => match heap w !! r with
           | Some a => (Ok a, w)
           | None => (Stuck, w)
           end.

Definition alloc (a : ndarray) : M ref :=
  fun w => (Ok (length (heap w)), {| self := self w; heap := heap w ++ [a] |}).

Definition store (r : ref) (a : ndarray) : M unit :=
  fun w => (Ok tt, {| self := self w; heap := <[r := a]> (heap w) |}).

Definition get_cdf_map : M (option (scipy.interp1d F)) :=
  fun w => (Ok (_cdf_map (self w)), w).

Definition set_cdf_map (f : scipy.interp1d F) : M unit :=
  fun w => (Ok tt, {| self := {| _cdf_map := Some f |}; heap := heap w |}).

(** [assert b]. *)
Definition assert_ (b : bool) : M unit :=
  if b then ret tt else raise AssertionError.

(** [a[-1]] on a one-dimensional array. *)
Definition getitem_last (r : ref) : M F :=
  a ← deref r;
  match last (data a) with
  | Some v => ret v
  | None => raise IndexError
  end.

(** [a /= v], in place. *)
Definition divided (a : ndarray) (v : F) : ndarray :=
  {| shape := shape a; data := (fun e => e / v) <$> data a |}.

Definition idiv (r : ref) (v : F) : M unit :=
  a ← deref r;
  store r (divided a v).

(** What [cdf = cumulative_trapezoid(pdf, x, initial=0)] followed by
    [cdf /= cdf[-1]] leaves in [cdf]. *)
Definition pdf_to_cdf (pdf x : list F) : ndarray :=
  let c := scipy.cumtrapz pdf x in
  divided (array c) (default zero (last c)).

(** What [fit_from_cdf] leaves in [cdf] when the last entry is [v]: the
    array itself when [v] is close to 1, else the array divided by [v]. *)
Definition fitted_cdf (ca : ndarray) (v : F) : ndarray :=
  if numpy.isclose v one then ca else divided ca v.

(** [assert x.ndim == 1 and x.shape == y.shape]. *)
Definition shapes_ok (x y : ndarray) : bool :=
  (ndim x =? 1)%nat && bool_decide (shape x = shape y).

Definition fit_from_cdf (x cdf : ref) : M unit :=
  xa ← deref x;
  ca ← deref cdf;
  assert_ (shapes_ok xa ca);;
  (* Optinally enforce normalisation. *)
  v ← getitem_last cdf;
  (if negb (numpy.isclose v one) then idiv cdf v else ret tt);;
  ca' ← deref cdf;
  xa' ← deref x;
  f ← lift (scipy.new_interp1d (data ca') (data xa'));
  set_cdf_map f.

Definition fit_from_pdf (x pdf : ref) : M unit :=
  xa ← deref x;
  pa ← deref pdf;
  assert_ (shapes_ok xa pa);;
  (* Compute CDF via cumulative trapezoid rule and enforce normalisation. *)
  c ← lift (scipy.cumulative_trapezoid (data pa) (data xa));
  cdf ← alloc (array c);
  v ← getitem_last cdf;
  idiv cdf v;;
  fit_from_cdf x cdf.

Definition transform_cdf (x cdf : ref) : M (ref * ref) :=
  m ← get_cdf_map;
  match m with
  | None => raise (RuntimeError "Transformation must be fitted first!")
  | Some f =>
      ca ← deref cdf;
      x' ← alloc {| shape := shape ca; data := scipy.call f (data ca) |};
      ret (x', cdf)
  end.

Definition transform_pdf (x pdf : ref) : M (ref * ref) :=
  xa ← deref x;
  pa ← deref pdf;
  if negb ((ndim xa =? 1)%nat && (ndim pa =? 1)%nat) then stuck
  else
    (* We first transform the PDF to a CDF, then transform the CDF, and
       then transform back to a PDF. *)
    c ← lift (scipy.cumulative_trapezoid (data pa) (data xa));
    cdf ← alloc (array c);
    v ← getitem_last cdf;
    idiv cdf v;;
    '(x', cdf') ← transform_cdf x cdf;
    xa' ← deref x';
    ca' ← deref cdf';
    g ← lift (numpy.gradient (data ca') (data xa'));
    pdf' ← alloc (array g);
    ret (x', pdf').

End InversePIT.

Arguments ndarray F : clear implicits.
Arguments InversePIT F : clear implicits.
Arguments world F : clear implicits.

(** ** Concrete inputs *)

Definition not_fitted : exn :=
  RuntimeError "Transformation must be fitted first!".

(** The world of an instance [m] and the one-dimensional arrays [arrays],
    array [i] at reference [i]. *)
Definition world_of {F : Type} (m : InversePIT F) (arrays : list (list F))
  : world F :=
  {| self := m; heap := array <$> arrays |}.

(** The entries of the array at [r], if there is one. *)
Definition read {F : Type} (w : world F) (r : ref) : option (list F) :=
  data <$> heap w !! r.

Module Float64Examples.
Import Binary64.

(** The double of an integer. *)
Definition i64 (n : Z) : float64 := b64 n 0.

(** A fitted instance: [fit_from_cdf] on [x = [0., 1., 2.]] and
    [cdf = [0., 0.5, 1.]]. *)
Definition fitted : world float64 :=
  snd (fit_from_cdf 0%nat 1%nat
         (world_of new_InversePIT
            [[i64 0; i64 1; i64 2]; [i64 0; b64 1 (-1); i64 1];
             [i64 7]; [i64 0; i64 1];
             [i64 0; i64 1; i64 2]; [i64 1; i64 1];
             [i64 0; i64 1; i64 2; i64 3]; [i64 1; i64 0; i64 0; i64 1]])).

(** An instance before any fit, with [x = [0., 1.]] and a [pdf] of three
    entries. *)
Definition unfitted : world float64 :=
  world_of new_InversePIT
    [[i64 0; i64 1]; [i64 1; i64 1; i64 1]; [i64 0; i64 1; i64 2]].

(** [x = [0., 1.]] with a [cdf] that ends at zero, one that is NaN
    throughout, and one that ends at 2. *)
Definition degenerate : world float64 :=
  world_of new_InversePIT
    [[i64 0; i64 1]; [i64 0; i64 0]; [nan; nan]; [i64 1; i64 2]].

(** A fit on an [x] that is not increasing, [x = [0., 2., 1., 3.]] with
    [cdf = [0., 0.25, 0.5, 1.]], and a test distribution [x = [0., 1., 2., 4.]],
    [pdf = [1., 1., 1., 1.]]. *)
Definition scrambled : world float64 :=
  snd (fit_from_cdf 0%nat 1%nat
         (world_of new_InversePIT
            [[i64 0; i64 2; i64 1; i64 3];
             [i64 0; b64 1 (-2); b64 1 (-1); i64 1];
             [i64 0; i64 1; i64 2; i64 4]; [i64 1; i64 1; i64 1; i64 1]])).

(** The double nearest to [n / 10]. *)
Definition tenth (n : Z) : float64 := SFdiv prec emax (i64 n) (i64 10).

(** [x = [0., 1., 2.]] with [pdf = [0.1, 0.2, 0.4]], the same [pdf] times 3,
    and [cdf = [0., 0.5, 1.]]. *)
Definition rescaling : world float64 :=
  world_of new_InversePIT
    [[i64 0; i64 1; i64 2];
     [tenth 1; tenth 2; tenth 4];
     (fun e => fmul (i64 3) e) <$> [tenth 1; tenth 2; tenth 4];
     [i64 0; b64 1 (-1); i64 1]].


(** Two arrays without entries, and one of a single entry. *)
Definition no_samples : world float64 :=
  world_of new_InversePIT [[]; []; [i64 1]].

(** [x = [0., 1., 2., 3.]] with a [cdf] that is not sorted and holds a NaN,
    [cdf = [0.5, nan, 0., 1.]]. *)
Definition unsorted : world float64 :=
  world_of new_InversePIT
    [[i64 0; i64 1; i64 2; i64 3]; [b64 1 (-1); nan; i64 0; i64 1]].


End Float64Examples.

(** ** The normalised CDF of a PDF, in the words of the spec

    "Compute the CDF from the PDF via cumulative trapezoidal numerical
    integration over x, with the CDF value at the first sample defined as 0
    (one CDF value per x sample, same length as input). Normalize the
    resulting CDF by dividing by its final value." *)

Section Spec.
Context {F : Type} `{Number F}.
Local Open Scope num_scope.

(** The area of the trapezoid between samples [i] and [i + 1]. *)
Definition trapezoid_area (pdf x : list F) (i : nat) : F :=
  (nth (S i) x zero - nth i x zero) * (nth (S i) pdf zero + nth i pdf zero) / two.

(** The integral up to sample [k]: 0 at the first sample, then the areas of
    the trapezoids [0, ..., k - 1], added in that order. *)
Definition integral_upto (pdf x : list F) (k : nat) : F :=
  match k with
  | O => zero
  | S k' => foldl fadd (trapezoid_area pdf x 0)
              (trapezoid_area pdf x <$> seq 1 k')
  end.

(** Each entry is below the next one. *)
Fixpoint increasing (l : list F) : bool :=
  match l with
  | a :: ((b :: _) as l') => flt a b && increasing l'
  | _ => true
  end.

(** What [interp1d._call_linear] computes at [cs[i]], a knot of the mapping
    through the knots [(cs[k], xs[k])], when [searchsorted] finds the knot at
    its own index [i]: with [hi = max(i, 1)] and [lo = hi - 1],
    [slope = (xs[hi] - xs[lo]) / (cs[hi] - cs[lo])] and
    [slope * (cs[i] - cs[lo]) + xs[lo]].  Before rounding this is [xs[i]]. *)
Definition round_trip_entry (cs xs : list F) (i : nat) : F :=
  let lo := Nat.pred (Nat.max i 1) in
  let hi := S lo in
  let slope := (nth hi xs zero - nth lo xs zero)
               / (nth hi cs zero - nth lo cs zero) in
  slope * (nth i cs zero - nth lo cs zero) + nth lo xs zero.


(** The line through the knots [lo] and [lo + 1] of the mapping through
    [(cs[k], xs[k])], at [q]: [interp1d._call_linear]'s
    [slope * (x_new - x_lo) + y_lo]. *)
Definition segment_line (cs xs : list F) (lo : nat) (q : F) : F :=
  (nth (S lo) xs zero - nth lo xs zero)
  / (nth (S lo) cs zero - nth lo cs zero)
  * (q - nth lo cs zero) + nth lo xs zero.

Definition spec_normalised_cdf (pdf x : list F) : list F :=
  let n := length pdf in
  (fun k => integral_upto pdf x k / integral_upto pdf x (n - 1)) <$> seq 0 n.

End Spec.

(** ** Proof support *)

Ltac munfold :=
  unfold fit_from_cdf, fit_from_pdf, transform_cdf, transform_pdf,
    getitem_last, idiv, assert_, deref, alloc, store, get_cdf_map, set_cdf_map,
    lift, raise, stuck, ret, mbind, M_bind, bind in *.

(** ** The library layer: lengths and success *)

Section Lengths.
Context {F : Type} `{Number F}.

Lemma length_diff (a : list F) : length (numpy.diff a) = (length a - 1)%nat.
Proof.
  unfold numpy.diff. rewrite length_zip_with. destruct a; simpl; lia.
Qed.

Lemma length_accumulate (acc : F) (a : list F) :
  length (numpy.accumulate acc a) = length a.
Proof.
  revert acc; induction a as [|t a IH]; intros acc; simpl; [done|].
  by rewrite IH.
Qed.

Lemma length_cumsum (a : list F) : length (numpy.cumsum a) = length a.
Proof. destruct a; simpl; [done|]. by rewrite length_accumulate. Qed.

Lemma length_trapezoids (y x : list F) :
  length x = length y -> length (scipy.trapezoids y x) = (length y - 1)%nat.
Proof.
  intros Hl. unfold scipy.trapezoids. rewrite !length_zip_with, length_diff.
  destruct y; simpl in *; lia.
Qed.

Lemma cumulative_trapezoid_ok (y x : list F) :
  y <> [] -> length x = length y ->
  scipy.cumulative_trapezoid y x = Ok (scipy.cumtrapz y x).
Proof.
  intros Hy Hl. unfold scipy.cumulative_trapezoid.
  destruct y as [|y0 y]; [done|].
  rewrite length_diff, Hl. simpl. rewrite Nat.sub_0_r, Nat.eqb_refl. done.
Qed.

Lemma cumulative_trapezoid_length (y x c : list F) :
  scipy.cumulative_trapezoid y x = Ok c -> length c = length y.
Proof.
  unfold scipy.cumulative_trapezoid. destruct y as [|y0 y]; [done|].
  destruct (negb _) eqn:E; [done|]. intros [= <-].
  apply negb_false_iff, Nat.eqb_eq in E. rewrite length_diff in E.
  unfold scipy.cumtrapz. simpl. rewrite length_cumsum. unfold scipy.trapezoids.
  rewrite !length_zip_with, length_diff. simpl in *. lia.
Qed.

Lemma cumulative_trapezoid_mismatch (y x : list F) :
  (0 < length x)%nat -> length x <> length y ->
  scipy.cumulative_trapezoid y x = Raise ValueError.
Proof.
  intros Hx Hl. unfold scipy.cumulative_trapezoid.
  destruct y as [|y0 y]; [done|].
  rewrite length_diff. simpl in *.
  destruct (Nat.eqb_spec (length x - 1) (length y - 0)); [lia|done].
Qed.

Lemma length_call (f : scipy.interp1d F) (q : list F) :
  length (scipy.call f q) = length q.
Proof. unfold scipy.call. by rewrite length_fmap. Qed.

Lemma length_interior_uniform (dx : F) (f : list F) :
  length (numpy.interior_uniform dx f) = (length f - 2)%nat.
Proof.
  induction f as [|f0 f IH]; [done|].
  destruct f as [|f1 [|f2 f]]; [done..|].
  change (numpy.interior_uniform dx (f0 :: f1 :: f2 :: f))
    with ((f2 - f0) / (two * dx)
            :: numpy.interior_uniform dx (f1 :: f2 :: f))%num.
  simpl length in *. rewrite IH. lia.
Qed.

Lemma length_interior (d f : list F) :
  length f = S (length d) ->
  length (numpy.interior d f) = (length f - 2)%nat.
Proof.
  revert f; induction d as [|dx1 d IH]; intros f Hl.
  - destruct f as [|? [|]]; simpl in *; done.
  - destruct f as [|f0 [|f1 f]]; simpl in Hl; try done.
    destruct d as [|dx2 d]; destruct f as [|f2 f]; simpl in Hl; try done.
    change (numpy.interior (dx1 :: dx2 :: d) (f0 :: f1 :: f2 :: f))
      with (numpy.interior_point dx1 dx2 f0 f1 f2
              :: numpy.interior (dx2 :: d) (f1 :: f2 :: f)).
    cbn [length]. rewrite IH; cbn [length]; [lia|]. simpl in Hl. lia.
Qed.

Lemma gradient_length (f x g : list F) :
  numpy.gradient f x = Ok g -> length g = length f.
Proof.
  unfold numpy.gradient. destruct (negb _) eqn:E; [done|].
  apply negb_false_iff, Nat.eqb_eq in E.
  destruct (numpy.diff x) as [|d0 d] eqn:Ed; [done|].
  destruct (_ <? 3)%nat eqn:E3; [done|]. apply Nat.ltb_ge in E3.
  assert (Hd : length f = S (length (d0 :: d))).
  { rewrite <- Ed, length_diff, E. lia. }
  pose proof (length_interior_uniform d0 f) as Hu.
  pose proof (length_interior (d0 :: d) f Hd) as Hn.
  set (iu := numpy.interior_uniform d0 f) in *.
  set (inn := numpy.interior (d0 :: d) f) in *.
  clearbody iu inn.
  destruct (numpy.constant_spacing d0 (d0 :: d)); intros Hg;
    injection Hg as <-; rewrite length_cons, length_app, ?Hu, ?Hn; simpl; lia.
Qed.

Lemma gradient_ok (f x : list F) :
  length x = length f -> (3 <= length f)%nat ->
  exists g, numpy.gradient f x = Ok g.
Proof.
  intros Hl H3. unfold numpy.gradient. rewrite Hl, Nat.eqb_refl. cbn [negb].
  pose proof (length_diff x) as Hd.
  destruct (numpy.diff x) as [|d0 d] eqn:Ed; [simpl in Hd; lia|].
  destruct (Nat.ltb_spec (length f) 3) as [|_]; [lia|].
  destruct (numpy.constant_spacing d0 (d0 :: d)); eauto.
Qed.

Lemma gradient_short (f x : list F) :
  length x = length f -> (length f < 3)%nat ->
  exists e, numpy.gradient f x = Raise e.
Proof.
  intros Hl H3. unfold numpy.gradient. rewrite Hl, Nat.eqb_refl. cbn [negb].
  destruct (numpy.diff x) as [|d0 d]; [eauto|].
  destruct (Nat.ltb_spec (length f) 3) as [_|]; [eauto|lia].
Qed.

Lemma length_sort_knots (l : list (F * F)) :
  length (scipy.sort_knots l) = length l.
Proof.
  assert (Hi : forall p k, length (scipy.insert_knot p k) = S (length k)).
  { intros p k. induction k as [|q k IH]; simpl; [done|].
    destruct (numpy.less _ _); simpl; by rewrite ?IH. }
  induction l as [|p l IH]; simpl; [done|]. by rewrite Hi, IH.
Qed.

Lemma new_interp1d_ok (x y : list F) :
  length x = length y -> x <> [] ->
  scipy.new_interp1d x y = Ok (scipy.sorted_interp1d x y).
Proof.
  intros Hl Hx. unfold scipy.new_interp1d. rewrite Hl, Nat.eqb_refl. simpl.
  rewrite <- Hl. destruct x; [done|]. done.
Qed.

End Lengths.

(** ** Running the methods *)

Section Running.
Context {F : Type} `{Number F}.
Implicit Types (w : world F) (x cdf pdf dep r : ref).
Implicit Types (xa ca pa da a : ndarray F).

Lemma bind_ok {A B} (c : M A) (k : A -> M B) w (v : A) w' :
  c w = (Ok v, w') -> (c ≫= k) w = k v w'.
Proof. intros Hc. unfold mbind, M_bind, bind. by rewrite Hc. Qed.

Lemma bind_raise {A B} (c : M A) (k : A -> M B) w e w' :
  c w = (Raise e, w') -> (c ≫= k) w = (Raise e, w').
Proof. intros Hc. unfold mbind, M_bind, bind. by rewrite Hc. Qed.

Lemma world_eta w : {| self := self w; heap := heap w |} = w.
Proof. by destruct w. Qed.

Lemma deref_ok w r a : heap w !! r = Some a -> deref r w = (Ok a, w).
Proof. intros Hr. unfold deref. by rewrite Hr. Qed.

Lemma getitem_last_ok w r a v :
  heap w !! r = Some a -> last (data a) = Some v ->
  getitem_last r w = (Ok v, w).
Proof.
  intros Hr Hv. unfold getitem_last.
  rewrite (bind_ok _ _ _ _ _ (deref_ok _ _ _ Hr)). by rewrite Hv.
Qed.

Lemma getitem_last_empty w r a :
  heap w !! r = Some a -> data a = [] ->
  getitem_last r w = (Raise IndexError, w).
Proof.
  intros Hr Hv. unfold getitem_last.
  rewrite (bind_ok _ _ _ _ _ (deref_ok _ _ _ Hr)). by rewrite Hv.
Qed.

Lemma idiv_ok w r a v :
  heap w !! r = Some a ->
  idiv r v w
  = (Ok tt, {| self := self w; heap := <[r := divided a v]> (heap w) |}).
Proof.
  intros Hr. unfold idiv.
  by rewrite (bind_ok _ _ _ _ _ (deref_ok _ _ _ Hr)).
Qed.

Lemma lookup_alloc (h : list (ndarray F)) a : (h ++ [a]) !! length h = Some a.
Proof. by rewrite lookup_app_r, Nat.sub_diag. Qed.

Lemma insert_alloc (h : list (ndarray F)) a b :
  <[length h := b]> (h ++ [a]) = h ++ [b].
Proof. by rewrite insert_app_r_alt, Nat.sub_diag. Qed.

Lemma shapes_ok_false xa da :
  ndim xa <> 1%nat \/ shape xa <> shape da -> shapes_ok xa da = false.
Proof.
  unfold shapes_ok. intros [Hn|Hs].
  - by destruct (Nat.eqb_spec (ndim xa) 1).
  - rewrite bool_decide_eq_false_2 by done. by rewrite andb_false_r.
Qed.

Lemma shapes_ok_true xa da :
  shapes_ok xa da = true -> ndim xa = 1%nat /\ shape xa = shape da.
Proof.
  unfold shapes_ok. intros [Hn Hs]%andb_true_iff.
  apply Nat.eqb_eq in Hn. by apply bool_decide_eq_true in Hs.
Qed.

(** *** [transform_cdf] *)

Lemma transform_cdf_unfitted w x cdf :
  _cdf_map (self w) = None ->
  transform_cdf x cdf w = (Raise not_fitted, w).
Proof. intros Hn. munfold. by rewrite Hn. Qed.

Lemma transform_cdf_fitted w f x cdf ca :
  _cdf_map (self w) = Some f -> heap w !! cdf = Some ca ->
  transform_cdf x cdf w
  = (Ok (length (heap w), cdf),
     {| self := self w;
        heap := heap w ++ [{| shape := shape ca;
                              data := scipy.call f (data ca) |}] |}).
Proof. intros Hf Hc. munfold. by rewrite Hf, Hc. Qed.

(** *** The failed assertion of the two fits *)

Lemma fit_from_cdf_assert w x dep xa da :
  heap w !! x = Some xa -> heap w !! dep = Some da ->
  shapes_ok xa da = false ->
  fit_from_cdf x dep w = (Raise AssertionError, w).
Proof. intros Hx Hd Hs. munfold. by rewrite Hx, Hd, Hs. Qed.

Lemma fit_from_pdf_assert w x dep xa da :
  heap w !! x = Some xa -> heap w !! dep = Some da ->
  shapes_ok xa da = false ->
  fit_from_pdf x dep w = (Raise AssertionError, w).
Proof. intros Hx Hd Hs. munfold. by rewrite Hx, Hd, Hs. Qed.

(** *** [cdf = cumulative_trapezoid(pdf, x, initial=0)], [cdf /= cdf[-1]]

    A fresh array is allocated and divided by its last entry. *)
Lemma integrate_and_normalise {B} w (y x : list F) (k : ref -> M B) :
  y <> [] -> length x = length y ->
  (c ← lift (scipy.cumulative_trapezoid y x);
   cdf ← alloc (array c);
   v ← getitem_last cdf;
   idiv cdf v;;
   k cdf) w
  = k (length (heap w))
      {| self := self w; heap := heap w ++ [pdf_to_cdf y x] |}.
Proof.
  intros Hy Hl.
  rewrite (bind_ok _ _ w (scipy.cumtrapz y x) w)
    by (unfold lift; by rewrite cumulative_trapezoid_ok).
  erewrite bind_ok by reflexivity.
  destruct (last (scipy.cumtrapz y x)) as [v|] eqn:Ev;
    [|by apply last_None in Ev].
  erewrite bind_ok; [|eapply getitem_last_ok; [apply lookup_alloc|exact Ev]].
  erewrite bind_ok; [|eapply idiv_ok; apply lookup_alloc].
  cbn [self heap]. rewrite insert_alloc. unfold pdf_to_cdf. by rewrite Ev.
Qed.

Lemma integrate_raises {B} w (y x : list F) e (k : ref -> M B) :
  scipy.cumulative_trapezoid y x = Raise e ->
  (c ← lift (scipy.cumulative_trapezoid y x);
   cdf ← alloc (array c);
   v ← getitem_last cdf;
   idiv cdf v;;
   k cdf) w
  = (Raise e, w).
Proof. intros He. apply bind_raise. unfold lift. by rewrite He. Qed.

Lemma length_pdf_to_cdf (y x : list F) :
  length x = length y -> y <> [] ->
  length (data (pdf_to_cdf y x)) = length y.
Proof.
  intros Hl Hy. unfold pdf_to_cdf, divided, array. cbn [data].
  rewrite length_fmap. apply cumulative_trapezoid_length with x.
  by apply cumulative_trapezoid_ok.
Qed.

(** *** [fit_from_pdf] hands a fresh, normalised array to [fit_from_cdf] *)

Lemma fit_from_pdf_run w x pdf xa pa :
  heap w !! x = Some xa -> heap w !! pdf = Some pa ->
  shapes_ok xa pa = true ->
  length (data xa) = length (data pa) -> data pa <> [] ->
  fit_from_pdf x pdf w
  = fit_from_cdf x (length (heap w))
      {| self := self w;
         heap := heap w ++ [pdf_to_cdf (data pa) (data xa)] |}.
Proof.
  intros Hx Hp Hs Hl Hne. unfold fit_from_pdf.
  rewrite (bind_ok _ _ _ _ _ (deref_ok _ _ _ Hx)).
  rewrite (bind_ok _ _ _ _ _ (deref_ok _ _ _ Hp)).
  rewrite Hs. erewrite bind_ok by reflexivity.
  by apply integrate_and_normalise.
Qed.

(** *** [fit_from_cdf] *)

Lemma fit_from_cdf_run w x cdf xa ca v :
  heap w !! x = Some xa -> heap w !! cdf = Some ca ->
  shapes_ok xa ca = true -> last (data ca) = Some v ->
  let h' := <[cdf := fitted_cdf ca v]> (heap w) in
  let xa' := if decide (x = cdf) then fitted_cdf ca v else xa in
  fit_from_cdf x cdf w
  = match scipy.new_interp1d (data (fitted_cdf ca v)) (data xa') with
    | Ok f => (Ok tt, {| self := {| _cdf_map := Some f |}; heap := h' |})
    | Raise e => (Raise e, {| self := self w; heap := h' |})
    | Stuck => (Stuck, {| self := self w; heap := h' |})
    end.
Proof.
  intros Hx Hc Hs Hv h' xa'. unfold fit_from_cdf.
  rewrite (bind_ok _ _ _ _ _ (deref_ok _ _ _ Hx)).
  rewrite (bind_ok _ _ _ _ _ (deref_ok _ _ _ Hc)).
  rewrite Hs. erewrite bind_ok by reflexivity.
  rewrite (bind_ok _ _ _ _ _ (getitem_last_ok _ _ _ _ Hc Hv)).
  assert (Hstep : (if negb (numpy.isclose v one) then idiv cdf v else ret tt) w
                  = (Ok tt, {| self := self w; heap := h' |})).
  { subst h'. unfold fitted_cdf. destruct (numpy.isclose v one); simpl.
    - unfold ret. by rewrite list_insert_id, world_eta.
    - by apply idiv_ok. }
  rewrite (bind_ok _ _ _ _ _ Hstep).
  assert (Hc' : h' !! cdf = Some (fitted_cdf ca v)).
  { apply list_lookup_insert_eq. by eapply lookup_lt_Some. }
  assert (Hx' : h' !! x = Some xa').
  { subst xa'. destruct (decide (x = cdf)) as [->|Hne]; [done|].
    subst h'. by rewrite list_lookup_insert_ne. }
  erewrite bind_ok by (apply deref_ok; exact Hc').
  erewrite bind_ok by (apply deref_ok; exact Hx').
  unfold mbind, M_bind, bind, lift, set_cdf_map.
  by destruct (scipy.new_interp1d _ _).
Qed.

Lemma fit_from_cdf_empty w x cdf xa ca :
  heap w !! x = Some xa -> heap w !! cdf = Some ca ->
  shapes_ok xa ca = true -> data ca = [] ->
  fit_from_cdf x cdf w = (Raise IndexError, w).
Proof.
  intros Hx Hc Hs Hv. unfold fit_from_cdf.
  rewrite (bind_ok _ _ _ _ _ (deref_ok _ _ _ Hx)).
  rewrite (bind_ok _ _ _ _ _ (deref_ok _ _ _ Hc)).
  rewrite Hs. erewrite bind_ok by reflexivity.
  by rewrite (bind_raise _ _ _ _ _ (getitem_last_empty _ _ _ Hc Hv)).
Qed.

Lemma length_fitted_cdf ca v :
  length (data (fitted_cdf ca v)) = length (data ca).
Proof.
  unfold fitted_cdf, divided. destruct (numpy.isclose v one); [done|].
  cbn [data]. by rewrite length_fmap.
Qed.

(** With as many entries in [x] as in [cdf], and at least one, the fit
    succeeds. *)
Lemma fit_from_cdf_ok w x cdf xa ca v :
  heap w !! x = Some xa -> heap w !! cdf = Some ca ->
  shapes_ok xa ca = true -> last (data ca) = Some v ->
  length (data xa) = length (data ca) ->
  let xa' := if decide (x = cdf) then fitted_cdf ca v else xa in
  fit_from_cdf x cdf w
  = (Ok tt,
     {| self := {| _cdf_map :=
                     Some (scipy.sorted_interp1d (data (fitted_cdf ca v))
                             (data xa')) |};
        heap := <[cdf := fitted_cdf ca v]> (heap w) |}).
Proof.
  intros Hx Hc Hs Hv Hl xa'.
  rewrite (fit_from_cdf_run _ _ _ _ _ _ Hx Hc Hs Hv). cbn zeta.
  rewrite new_interp1d_ok; [done| |].
  - subst xa'. rewrite length_fitted_cdf.
    destruct (decide _); [by rewrite length_fitted_cdf|done].
  - intros He. apply (f_equal length) in He.
    rewrite length_fitted_cdf in He. destruct (data ca); [done|done].
Qed.

End Running.

(** ** [transform_pdf] *)

Section TransformPdf.
Context {F : Type} `{Number F}.
Implicit Types (w : world F) (x cdf pdf dep r : ref).
Implicit Types (xa ca pa da a : ndarray F).

Lemma transform_pdf_run w f x pdf xa pa :
  _cdf_map (self w) = Some f ->
  heap w !! x = Some xa -> heap w !! pdf = Some pa ->
  ndim xa = 1%nat -> ndim pa = 1%nat ->
  length (data xa) = length (data pa) -> data pa <> [] ->
  let c := pdf_to_cdf (data pa) (data xa) in
  let nx := {| shape := shape c; data := scipy.call f (data c) |} in
  let h2 := (heap w ++ [c]) ++ [nx] in
  transform_pdf x pdf w
  = match numpy.gradient (data c) (data nx) with
    | Ok g => (Ok (S (length (heap w)), S (S (length (heap w)))),
               {| self := self w; heap := h2 ++ [array g] |})
    | Raise e => (Raise e, {| self := self w; heap := h2 |})
    | Stuck => (Stuck, {| self := self w; heap := h2 |})
    end.
Proof.
  intros Hf Hx Hp Hnx Hnp Hl Hne c nx h2. unfold transform_pdf.
  rewrite (bind_ok _ _ _ _ _ (deref_ok _ _ _ Hx)).
  rewrite (bind_ok _ _ _ _ _ (deref_ok _ _ _ Hp)).
  rewrite Hnx, Hnp. cbn [Nat.eqb andb negb].
  rewrite integrate_and_normalise by done. fold c.
  erewrite bind_ok; cycle 1.
  { eapply transform_cdf_fitted; [exact Hf|]. cbn [heap]. apply lookup_alloc. }
  cbn [heap self]. rewrite length_app. cbn [length]. rewrite Nat.add_1_r.
  fold nx. fold h2.
  assert (Hnx' : h2 !! S (length (heap w)) = Some nx).
  { subst h2. replace (S (length (heap w))) with (length (heap w ++ [c])).
    - apply lookup_alloc.
    - rewrite length_app. simpl. lia. }
  assert (Hc' : h2 !! length (heap w) = Some c).
  { subst h2. rewrite lookup_app_l.
    - apply lookup_alloc.
    - rewrite length_app. simpl. lia. }
  erewrite bind_ok by (apply deref_ok; exact Hnx').
  erewrite bind_ok by (apply deref_ok; exact Hc').
  unfold mbind, M_bind, bind, lift, alloc, ret. cbn [heap self].
  destruct (numpy.gradient _ _); [|done..].
  do 3 f_equal. subst h2. rewrite !length_app. simpl. lia.
Qed.

(** Before any fit, the integration runs first and the fitted check
    second. *)
Lemma transform_pdf_unfitted w x pdf xa pa :
  _cdf_map (self w) = None ->
  heap w !! x = Some xa -> heap w !! pdf = Some pa ->
  ndim xa = 1%nat -> ndim pa = 1%nat ->
  length (data xa) = length (data pa) -> data pa <> [] ->
  transform_pdf x pdf w
  = (Raise not_fitted,
     {| self := self w;
        heap := heap w ++ [pdf_to_cdf (data pa) (data xa)] |}).
Proof.
  intros Hf Hx Hp Hnx Hnp Hl Hne. unfold transform_pdf.
  rewrite (bind_ok _ _ _ _ _ (deref_ok _ _ _ Hx)).
  rewrite (bind_ok _ _ _ _ _ (deref_ok _ _ _ Hp)).
  rewrite Hnx, Hnp. cbn [Nat.eqb andb negb].
  rewrite integrate_and_normalise by done.
  apply bind_raise. by apply transform_cdf_unfitted.
Qed.

Lemma transform_pdf_mismatch w x pdf xa pa :
  heap w !! x = Some xa -> heap w !! pdf = Some pa ->
  ndim xa = 1%nat -> ndim pa = 1%nat ->
  (0 < length (data xa))%nat -> length (data xa) <> length (data pa) ->
  transform_pdf x pdf w = (Raise ValueError, w).
Proof.
  intros Hx Hp Hnx Hnp H0 Hl. unfold transform_pdf.
  rewrite (bind_ok _ _ _ _ _ (deref_ok _ _ _ Hx)).
  rewrite (bind_ok _ _ _ _ _ (deref_ok _ _ _ Hp)).
  rewrite Hnx, Hnp. cbn [Nat.eqb andb negb].
  apply integrate_raises. by apply cumulative_trapezoid_mismatch.
Qed.

End TransformPdf.

(** ** Guards and shapes *)

Section Guards.
Context {F : Type} `{Number F}.
Implicit Types (w : world F) (x cdf pdf dep r : ref).
Implicit Types (xa ca pa da a : ndarray F).

(** C1 (amended). [fit_from_cdf] and [fit_from_pdf], called with an [x]
    that is not one-dimensional or whose shape differs from the shape of the
    dependent array ([cdf] or [pdf]), raise the assertion error (the spec's
    InvalidInputShape) and leave the instance and the arrays as they were.
    The claim says so of the transform operations as well, which check no
    shape. *)
Theorem fit_shape_guard w x dep xa da :
  heap w !! x = Some xa -> heap w !! dep = Some da ->
  ndim xa <> 1%nat \/ shape xa <> shape da ->
  fit_from_cdf x dep w = (Raise AssertionError, w)
  /\ fit_from_pdf x dep w = (Raise AssertionError, w).
Proof.
  intros Hx Hd Hbad. apply shapes_ok_false in Hbad. split.
  - by eapply fit_from_cdf_assert.
  - by eapply fit_from_pdf_assert.
Qed.

(** C2 (amended). On an instance on which no fit has succeeded,
    [transform_cdf] raises the not-fitted error whatever its arguments;
    [transform_pdf] raises it when [x] and [pdf] are one-dimensional arrays
    of the same, non-zero length. (On other arguments the integration of the
    pdf, which comes before the check, fails with an error of its own.) *)
Theorem not_fitted_guard w x pdf xa pa :
  _cdf_map (self w) = None ->
  heap w !! x = Some xa -> heap w !! pdf = Some pa ->
  ndim xa = 1%nat -> ndim pa = 1%nat ->
  length (data xa) = length (data pa) -> data pa <> [] ->
  (forall x' cdf', transform_cdf x' cdf' w = (Raise not_fitted, w))
  /\ fst (transform_pdf x pdf w) = Raise not_fitted
  /\ self (snd (transform_pdf x pdf w)) = self w.
Proof.
  intros Hn Hx Hp Hnx Hnp Hl Hne. split.
  - intros x' cdf'. by apply transform_cdf_unfitted.
  - by rewrite (transform_pdf_unfitted _ _ _ _ _ Hn Hx Hp Hnx Hnp Hl Hne).
Qed.

(** C8. [transform_cdf] does not read its [x] argument: with the same
    instance, the same store and the same [cdf], any two [x] give the same
    outcome, the same returned references and the same final state. *)
Theorem transform_cdf_ignores_x w cdf (x1 x2 : ref) :
  transform_cdf x1 cdf w = transform_cdf x2 cdf w.
Proof. reflexivity. Qed.

(** C4 (amended). On a fitted instance, [transform_cdf] returns for every
    array [cdf]: its second component is the very array it was given, left
    as it was, and its first is a new array of the same shape and length.
    [transform_pdf] returns two arrays of the length of its inputs when [x]
    and [pdf] are one-dimensional, of the same length, and that length is
    at least 3; and whenever it returns, that length is at least 3. *)
Theorem transform_lengths w f x dep xa da :
  _cdf_map (self w) = Some f ->
  heap w !! x = Some xa -> heap w !! dep = Some da ->
  (exists w' nx,
      transform_cdf x dep w = (Ok (length (heap w), dep), w')
      /\ heap w' !! dep = Some da
      /\ heap w' !! length (heap w) = Some nx
      /\ shape nx = shape da
      /\ length (data nx) = length (data da))
  /\ (ndim xa = 1%nat -> ndim da = 1%nat ->
      length (data xa) = length (data da) ->
      (3 <= length (data da))%nat ->
      exists x' pdf' w' nx np,
        transform_pdf x dep w = (Ok (x', pdf'), w')
        /\ heap w' !! x' = Some nx
        /\ heap w' !! pdf' = Some np
        /\ length (data nx) = length (data da)
        /\ length (data np) = length (data da))
  /\ (ndim xa = 1%nat -> ndim da = 1%nat ->
      length (data xa) = length (data da) ->
      (length (data da) < 3)%nat ->
      exists e w', transform_pdf x dep w = (Raise e, w')).
Proof.
  intros Hf Hx Hd. split; [|split].
  - eexists _, _. split; [by apply transform_cdf_fitted|]. cbn [heap].
    split; [|split; [|split]].
    + rewrite lookup_app_l; [done|]. by eapply lookup_lt_Some.
    + apply lookup_alloc.
    + done.
    + cbn [data]. apply length_call.
  - intros Hnx Hnd Hl H3.
    assert (Hne : data da <> []) by (destruct (data da); simpl in *; [lia|done]).
    pose proof (transform_pdf_run _ _ _ _ _ _ Hf Hx Hd Hnx Hnd Hl Hne) as Hr.
    cbn zeta in Hr.
    set (c := pdf_to_cdf (data da) (data xa)) in *.
    assert (Hlc : length (data c) = length (data da))
      by (by apply length_pdf_to_cdf).
    destruct (gradient_ok (data c) (scipy.call f (data c))) as [g Hg].
    { by rewrite length_call. }
    { lia. }
    cbn [data] in Hr. rewrite Hg in Hr.
    eexists _, _, _, _, _. split; [exact Hr|]. cbn [heap].
    split; [|split; [|split]].
    + rewrite lookup_app_l.
      * replace (S (length (heap w))) with (length (heap w ++ [c])).
        -- apply lookup_alloc.
        -- rewrite length_app. simpl. lia.
      * rewrite !length_app. simpl. lia.
    + replace (S (S (length (heap w))))
        with (length ((heap w ++ [c]) ++
                        [{| shape := shape c; data := scipy.call f (data c) |}])).
      * apply lookup_alloc.
      * rewrite !length_app. simpl. lia.
    + cbn [data]. by rewrite length_call.
    + cbn [data array]. apply gradient_length in Hg. lia.
  - intros Hnx Hnd Hl H3.
    destruct (decide (data da = [])) as [He|Hne].
    + exists ValueError, w. unfold transform_pdf.
      rewrite (bind_ok _ _ _ _ _ (deref_ok _ _ _ Hx)).
      rewrite (bind_ok _ _ _ _ _ (deref_ok _ _ _ Hd)).
      rewrite Hnx, Hnd. cbn [Nat.eqb andb negb].
      apply integrate_raises. by rewrite He.
    + pose proof (transform_pdf_run _ _ _ _ _ _ Hf Hx Hd Hnx Hnd Hl Hne) as Hr.
      cbn zeta in Hr.
      set (c := pdf_to_cdf (data da) (data xa)) in *.
      assert (Hlc : length (data c) = length (data da))
        by (by apply length_pdf_to_cdf).
      destruct (gradient_short (data c) (scipy.call f (data c))) as [e Hg].
      { by rewrite length_call. }
      { lia. }
      cbn [data] in Hr. rewrite Hg in Hr. eauto.
Qed.

End Guards.

Module Float64Guards.
Import Binary64 Float64Examples.

(** C1, refuted as stated: on a fitted instance, [transform_cdf] called
    with an [x] of one entry and a [cdf] of three returns. *)
Lemma shape_guard_counterexample :
  shape <$> heap fitted !! 2%nat = Some [1%nat]
  /\ shape <$> heap fitted !! 1%nat = Some [3%nat]
  /\ fst (transform_cdf 2%nat 1%nat fitted) = Ok (8%nat, 1%nat).
Proof. vm_compute. auto. Qed.

Lemma fit_shape_guard_witness :
  fit_from_cdf 0%nat 1%nat unfitted = (Raise AssertionError, unfitted)
  /\ fit_from_pdf 0%nat 1%nat unfitted = (Raise AssertionError, unfitted).
Proof.
  apply (fit_shape_guard unfitted 0%nat 1%nat
           (array [i64 0; i64 1]) (array [i64 1; i64 1; i64 1])).
  - reflexivity.
  - reflexivity.
  - right. discriminate.
Defined.

(** C2, refuted as stated: before any fit, [transform_pdf] called with an
    [x] of two entries and a [pdf] of three raises ValueError, from the
    integration. *)
Lemma not_fitted_counterexample :
  _cdf_map (self unfitted) = None
  /\ transform_pdf 0%nat 1%nat unfitted = (Raise ValueError, unfitted).
Proof. vm_compute. auto. Qed.

Lemma not_fitted_guard_witness :
  (forall x' cdf', transform_cdf x' cdf' unfitted = (Raise not_fitted, unfitted))
  /\ fst (transform_pdf 1%nat 2%nat unfitted) = Raise not_fitted
  /\ self (snd (transform_pdf 1%nat 2%nat unfitted)) = self unfitted.
Proof.
  apply (not_fitted_guard unfitted 1%nat 2%nat
           (array [i64 1; i64 1; i64 1]) (array [i64 0; i64 1; i64 2]));
    try reflexivity.
  discriminate.
Defined.

(** C4, refuted as stated: on a fitted instance, [transform_pdf] called
    with an [x] and a [pdf] of two entries each does not return: it raises
    ValueError, from [np.gradient]. *)
Lemma transform_lengths_counterexample :
  read fitted 3%nat = Some [i64 0; i64 1]
  /\ read fitted 5%nat = Some [i64 1; i64 1]
  /\ fst (transform_pdf 3%nat 5%nat fitted) = Raise ValueError.
Proof. vm_compute. auto. Qed.

Lemma transform_lengths_witness :
  exists x' pdf' w' nx np,
    transform_pdf 0%nat 4%nat fitted = (Ok (x', pdf'), w')
    /\ heap w' !! x' = Some nx
    /\ heap w' !! pdf' = Some np
    /\ length (data nx) = 3%nat
    /\ length (data np) = 3%nat.
Proof.
  destruct (transform_lengths fitted
              (scipy.sorted_interp1d [i64 0; b64 1 (-1); i64 1]
                 [i64 0; i64 1; i64 2])
              0%nat 4%nat
              (array [i64 0; i64 1; i64 2]) (array [i64 0; i64 1; i64 2]))
    as (_ & Hpdf & _).
  - vm_compute. reflexivity.
  - reflexivity.
  - reflexivity.
  - apply Hpdf; [reflexivity|reflexivity|reflexivity|simpl; lia].
Defined.

End Float64Guards.

(** ** [fit_from_pdf] against the spec's normalised CDF *)

Section Refinement.
Context {F : Type} `{Number F}.
Implicit Types (w : world F) (x cdf pdf dep r : ref).
Implicit Types (xa ca pa da a : ndarray F).
Local Open Scope num_scope.

Lemma diff_lookup (a : list F) (i : nat) :
  (S i < length a)%nat ->
  numpy.diff a !! i = Some (nth (S i) a zero - nth i a zero).
Proof.
  revert i; induction a as [|a0 a IH]; intros i Hi; simpl in Hi; [lia|].
  destruct a as [|a1 a]; simpl in Hi; [lia|].
  destruct i as [|i]; [done|].
  change (numpy.diff (a0 :: a1 :: a)) with ((a1 - a0) :: numpy.diff (a1 :: a)).
  cbn [lookup list_lookup]. rewrite IH by (simpl; lia). done.
Qed.

Lemma trapezoids_lookup (y x : list F) (i : nat) :
  (S i < length y)%nat -> length x = length y ->
  scipy.trapezoids y x !! i = Some (trapezoid_area y x i).
Proof.
  intros Hi Hl. unfold scipy.trapezoids.
  rewrite lookup_zip_with, diff_lookup by lia. cbn [mbind option_bind].
  assert (Hs : zip_with fadd (tail y) y !! i
               = Some (nth (S i) y zero + nth i y zero)).
  { clear Hl x. revert i Hi; induction y as [|y0 y IH]; intros i Hi;
      simpl in Hi; [lia|].
    destruct y as [|y1 y]; simpl in Hi; [lia|].
    destruct i as [|i]; [done|].
    cbn [tail zip_with lookup list_lookup]. cbn [tail] in IH.
    rewrite IH by (simpl; lia). done. }
  rewrite Hs. done.
Qed.

Lemma accumulate_lookup_0 (acc : F) (l : list F) :
  numpy.accumulate acc l !! 0%nat = (fun t => acc + t) <$> l !! 0%nat.
Proof. by destruct l. Qed.

Lemma accumulate_lookup_S (acc : F) (l : list F) (k : nat) :
  numpy.accumulate acc l !! S k
  = s ← numpy.accumulate acc l !! k; t ← l !! S k; Some (s + t).
Proof.
  revert acc k; induction l as [|t l IH]; intros acc k; [done|].
  cbn [numpy.accumulate lookup list_lookup].
  destruct k as [|k].
  - rewrite accumulate_lookup_0. cbn. by destruct l.
  - rewrite IH. done.
Qed.

Lemma cumsum_lookup_S (l : list F) (k : nat) :
  numpy.cumsum l !! S k = s ← numpy.cumsum l !! k; t ← l !! S k; Some (s + t).
Proof.
  destruct l as [|t0 l]; [done|]. cbn [numpy.cumsum lookup list_lookup].
  destruct k as [|k].
  - rewrite accumulate_lookup_0. cbn. by destruct l.
  - apply accumulate_lookup_S.
Qed.

Lemma integral_upto_S (pdf x : list F) (k : nat) :
  integral_upto pdf x (S (S k))
  = integral_upto pdf x (S k) + trapezoid_area pdf x (S k).
Proof.
  unfold integral_upto. rewrite seq_S, fmap_app, foldl_app. done.
Qed.

(** The code's running sum is the spec's integral, sample by sample. *)
Lemma cumsum_trapezoids_lookup (pdf x : list F) (k : nat) :
  length x = length pdf -> (S k < length pdf)%nat ->
  numpy.cumsum (scipy.trapezoids pdf x) !! k
  = Some (integral_upto pdf x (S k)).
Proof.
  intros Hl. induction k as [|k IH]; intros Hk.
  - pose proof (trapezoids_lookup pdf x 0 Hk Hl) as Ht.
    destruct (scipy.trapezoids pdf x) as [|t0 t]; [done|].
    cbn in Ht. injection Ht as ->. done.
  - rewrite integral_upto_S, cumsum_lookup_S, IH by lia.
    rewrite trapezoids_lookup by lia. done.
Qed.

Lemma cumtrapz_lookup (pdf x : list F) (k : nat) :
  length x = length pdf -> (k < length pdf)%nat ->
  scipy.cumtrapz pdf x !! k = Some (integral_upto pdf x k).
Proof.
  intros Hl Hk. unfold scipy.cumtrapz. destruct k as [|k]; [done|].
  by apply cumsum_trapezoids_lookup.
Qed.

Lemma cumtrapz_spec (pdf x : list F) :
  length x = length pdf -> pdf <> [] ->
  scipy.cumtrapz pdf x = integral_upto pdf x <$> seq 0 (length pdf).
Proof.
  intros Hl Hne. apply list_eq. intros k.
  destruct (decide (k < length pdf)%nat) as [Hk|Hk].
  - rewrite cumtrapz_lookup by done.
    rewrite list_lookup_fmap, lookup_seq_lt by done. done.
  - rewrite !lookup_ge_None_2; [done| |].
    + rewrite length_fmap, length_seq. lia.
    + erewrite cumulative_trapezoid_length
        by (by apply cumulative_trapezoid_ok). lia.
Qed.

Lemma pdf_to_cdf_spec (pdf x : list F) :
  length x = length pdf -> pdf <> [] ->
  pdf_to_cdf pdf x = array (spec_normalised_cdf pdf x).
Proof.
  intros Hl Hne. unfold pdf_to_cdf, divided, array, spec_normalised_cdf.
  cbn [shape data].
  assert (Hlast : last (scipy.cumtrapz pdf x)
                  = Some (integral_upto pdf x (length pdf - 1))).
  { rewrite last_lookup.
    erewrite cumulative_trapezoid_length by (by apply cumulative_trapezoid_ok).
    rewrite cumtrapz_lookup; [|done|destruct pdf; simpl in *; [done|lia]].
    do 2 f_equal. lia. }
  rewrite Hlast. cbn [default].
  rewrite cumtrapz_spec by done. rewrite <- list_fmap_compose.
  f_equal. by rewrite !length_fmap.
Qed.

End Refinement.

(** ** What the operations leave in the store *)

Section Frame.
Context {F : Type} `{Number F}.
Implicit Types (w : world F) (x cdf pdf dep r : ref).
Implicit Types (xa ca pa da a : ndarray F).

Lemma fit_from_cdf_frame w x cdf r :
  r <> cdf ->
  heap (snd (fit_from_cdf x cdf w)) !! r = heap w !! r.
Proof.
  intros Hr. munfold. repeat (case_match; simplify_eq/=); try done.
  all: by rewrite ?list_lookup_insert_ne.
Qed.

Lemma transform_cdf_frame w x cdf r a :
  heap w !! r = Some a ->
  heap (snd (transform_cdf x cdf w)) !! r = Some a.
Proof.
  intros Hr. pose proof (lookup_lt_Some _ _ _ Hr).
  munfold. repeat (case_match; simplify_eq/=); try done.
  all: by rewrite ?lookup_app_l.
Qed.

Lemma fit_from_pdf_frame w x pdf r a :
  heap w !! r = Some a ->
  heap (snd (fit_from_pdf x pdf w)) !! r = Some a.
Proof.
  intros Hr. pose proof (lookup_lt_Some _ _ _ Hr) as Hlt.
  unfold fit_from_pdf.
  unfold getitem_last, idiv, mbind, M_bind, bind, deref, assert_, lift, alloc,
    store, ret, raise.
  repeat (case_match; simplify_eq/=); try done.
  all: try (rewrite ?lookup_app_l by done; done).
  all: try (rewrite fit_from_cdf_frame by (cbn; lia); cbn).
  all: rewrite ?list_lookup_insert_ne by lia; rewrite ?lookup_app_l by done;
    done.
Qed.

Lemma transform_pdf_frame w x pdf r a :
  heap w !! r = Some a ->
  heap (snd (transform_pdf x pdf w)) !! r = Some a.
Proof.
  intros Hr. pose proof (lookup_lt_Some _ _ _ Hr) as Hlt.
  unfold transform_pdf. unfold transform_cdf, getitem_last, idiv.
  unfold mbind, M_bind, bind, deref, get_cdf_map, assert_, lift, alloc,
    store, ret, raise, stuck.
  repeat (case_match; simplify_eq/=); try done.
  all: rewrite ?lookup_app_l;
    rewrite ?length_app, ?length_insert, ?length_app; try (simpl; lia).
  all: rewrite ?list_lookup_insert_ne by lia; rewrite ?lookup_app_l by done;
    done.
Qed.

(** Shapes and numbers of entries of well-formed arrays. *)
Lemma wf_array_1d a :
  wf_array a -> ndim a = 1%nat -> shape a = [length (data a)].
Proof.
  unfold wf_array, ndim. destruct (shape a) as [|n [|]]; try done.
  simpl. intros -> _. f_equal. lia.
Qed.

Lemma shapes_ok_lengths xa da :
  wf_array xa -> wf_array da -> shapes_ok xa da = true ->
  length (data xa) = length (data da).
Proof.
  unfold wf_array. intros -> -> [_ ->]%shapes_ok_true. done.
Qed.

End Frame.

(** ** binary64: normalisation *)

Module Float64Fit.
Import Binary64 Float64Examples.
Implicit Types (w : world float64) (x cdf pdf dep r : ref).
Implicit Types (xa ca pa da a : ndarray float64) (v t l : float64).

Lemma div_eucl_mul (q m : Z) : 0 < m -> Z.div_eucl (q * m) m = (q, 0).
Proof.
  intros Hm.
  pose proof (Z.div_mul q m ltac:(lia)) as Hq.
  pose proof (Z.mod_mul q m ltac:(lia)) as Hr.
  unfold Z.div, Z.modulo in *. destruct (Z.div_eucl (q * m) m). congruence.
Qed.

Lemma new_location_0 (n : Z) : new_location n 0 = loc_Exact.
Proof. unfold new_location. by destruct (Z.even n). Qed.

(** A finite number other than zero, divided by itself, is exactly 1. *)
Lemma SFdiv_self (s : bool) (m : positive) (e : Z) :
  SFdiv prec emax (S754_finite s m e) (S754_finite s m e) = f_one.
Proof.
  unfold SFdiv, SFdiv_core_binary.
  rewrite !Z.sub_diag.
  change (Z.min (fexp prec emax 0) 0) with (-53).
  change (0 - -53) with 53.
  cbv iota beta.
  rewrite Z.shiftl_mul_pow2 by lia.
  rewrite (Z.mul_comm (Z.pos m)).
  rewrite div_eucl_mul by lia.
  rewrite new_location_0, xorb_nilpotent. reflexivity.
Qed.

Lemma div_self v :
  fdiv v v = if finite_nonzero v then f_one else nan.
Proof.
  destruct v as [s|s| |s m e]; try reflexivity. apply SFdiv_self.
Qed.

Lemma isclose_one_finite v : numpy.isclose v one = true -> finite_nonzero v = true.
Proof. destruct v as [[]|[]| |s m e]; try done; vm_compute; done. Qed.

Lemma isclose_div_self v :
  numpy.isclose (fdiv v v) one = finite_nonzero v.
Proof. rewrite div_self. by destruct (finite_nonzero v). Qed.

Lemma finite_nonzero_div_self v :
  finite_nonzero (fdiv v v) = finite_nonzero v.
Proof. rewrite div_self. by destruct (finite_nonzero v). Qed.

(** The last entry of the array a fit builds its mapping from. *)
Lemma fitted_cdf_last ca v :
  last (data ca) = Some v ->
  exists l, last (data (fitted_cdf ca v)) = Some l
            /\ numpy.isclose l one = finite_nonzero v.
Proof.
  intros Hv. unfold fitted_cdf.
  destruct (numpy.isclose v one) eqn:Hc.
  - exists v. split; [done|]. by rewrite isclose_one_finite.
  - exists (fdiv v v). split; [|apply isclose_div_self].
    unfold divided. cbn [data]. by rewrite fmap_last, Hv.
Qed.

Lemma last_pdf_to_cdf (y x : list float64) t :
  last (scipy.cumtrapz y x) = Some t ->
  last (data (pdf_to_cdf y x)) = Some (fdiv t t).
Proof.
  intros Ht. unfold pdf_to_cdf, divided. cbn [data array].
  by rewrite fmap_last, Ht.
Qed.

(** C5 (amended). A fit on one-dimensional arrays of one shape, of at least
    two entries, succeeds, and the array its mapping is built from ends within
    [np.isclose]'s tolerance of 1 exactly when the final value it started
    from - the last entry of [cdf] for [fit_from_cdf], the value of the
    trapezoidal integral of [pdf] for [fit_from_pdf] - is finite and not
    zero. (Otherwise that array ends at NaN.) *)
Theorem fit_ends_at_one w x dep xa da :
  heap w !! x = Some xa -> heap w !! dep = Some da ->
  shapes_ok xa da = true -> wf_array xa -> wf_array da ->
  (2 <= length (data da))%nat ->
  (forall v, last (data da) = Some v ->
     exists w' used xa' f l,
       fit_from_cdf x dep w = (Ok tt, w')
       /\ _cdf_map (self w') = Some f
       /\ heap w' !! dep = Some used /\ heap w' !! x = Some xa'
       /\ scipy.new_interp1d (data used) (data xa') = Ok f
       /\ last (data used) = Some l
       /\ numpy.isclose l one = finite_nonzero v)
  /\ (forall t, last (scipy.cumtrapz (data da) (data xa)) = Some t ->
     exists w' used f l,
       fit_from_pdf x dep w = (Ok tt, w')
       /\ _cdf_map (self w') = Some f
       /\ heap w' !! length (heap w) = Some used /\ heap w' !! x = Some xa
       /\ scipy.new_interp1d (data used) (data xa) = Ok f
       /\ last (data used) = Some l
       /\ numpy.isclose l one = finite_nonzero t).
Proof.
  intros Hx Hd Hs Hwx Hwd H2.
  assert (Hne : data da <> []) by (destruct (data da); simpl in *; [lia|done]).
  pose proof (shapes_ok_lengths _ _ Hwx Hwd Hs) as Hl.
  pose proof (lookup_lt_Some _ _ _ Hx) as Hxlt.
  pose proof (lookup_lt_Some _ _ _ Hd) as Hdlt.
  split.
  - intros v Hv.
    destruct (fitted_cdf_last _ _ Hv) as (l & Hlast & Hclose).
    pose proof (fit_from_cdf_ok _ _ _ _ _ _ Hx Hd Hs Hv Hl) as Hfit.
    cbn zeta in Hfit.
    set (xa' := if decide (x = dep) then fitted_cdf da v else xa) in *.
    eexists _, (fitted_cdf da v), xa', _, l.
    split; [exact Hfit|]. cbn [self heap _cdf_map].
    split; [done|]. split; [by apply list_lookup_insert_eq|].
    split.
    { subst xa'. destruct (decide (x = dep)) as [->|Hn].
      - by apply list_lookup_insert_eq.
      - by rewrite list_lookup_insert_ne. }
    split; [|done].
    apply new_interp1d_ok.
    + subst xa'. rewrite length_fitted_cdf.
      destruct (decide _); [by rewrite length_fitted_cdf|done].
    + intros He. apply (f_equal length) in He.
      rewrite length_fitted_cdf in He. by destruct (data da).
  - intros t Ht.
    rewrite (fit_from_pdf_run _ _ _ _ _ Hx Hd Hs Hl Hne).
    set (c := pdf_to_cdf (data da) (data xa)).
    set (w1 := {| self := self w; heap := heap w ++ [c] |}).
    pose proof (last_pdf_to_cdf _ _ _ Ht) as Hv. fold c in Hv.
    destruct (fitted_cdf_last _ _ Hv) as (l & Hlast & Hclose).
    rewrite finite_nonzero_div_self in Hclose.
    assert (Hlc : length (data c) = length (data da))
      by (by apply length_pdf_to_cdf).
    destruct (shapes_ok_true _ _ Hs) as [Hnd Hsh].
    assert (Hs1 : shapes_ok xa c = true).
    { unfold shapes_ok. rewrite Hnd, Nat.eqb_refl. cbn [andb].
      apply bool_decide_eq_true. rewrite (wf_array_1d _ Hwx Hnd).
      subst c. unfold pdf_to_cdf, divided, array. cbn [shape].
      f_equal. rewrite Hl.
      symmetry. apply cumulative_trapezoid_length with (data xa).
      by apply cumulative_trapezoid_ok. }
    assert (Hx1 : heap w1 !! x = Some xa) by (by apply lookup_app_l_Some).
    assert (Hc1 : heap w1 !! length (heap w) = Some c) by apply lookup_alloc.
    pose proof (fit_from_cdf_ok w1 _ _ _ _ _ Hx1 Hc1 Hs1 Hv) as Hfit.
    cbn zeta in Hfit. rewrite decide_False in Hfit by lia.
    rewrite Hfit by lia.
    eexists _, (fitted_cdf c (fdiv t t)), _, l.
    split; [reflexivity|]. cbn [self heap _cdf_map].
    split; [done|].
    split.
    { apply list_lookup_insert_eq. subst w1. cbn [heap].
      rewrite length_app. simpl. lia. }
    split. { rewrite list_lookup_insert_ne by lia. done. }
    split; [|split; [done|]].
    + apply new_interp1d_ok.
      * rewrite length_fitted_cdf. lia.
      * intros He. apply (f_equal length) in He.
        rewrite length_fitted_cdf, Hlc in He. by destruct (data da).
    + rewrite Hclose. done.
Qed.

(** C5, refuted as stated: [fit_from_cdf] on [x = [0., 1.]] and
    [cdf = [0., 0.]] succeeds, and the array the mapping is built from ends
    at NaN, which is not close to 1. *)
Lemma fit_ends_at_one_counterexample :
  let after := fit_from_cdf 0%nat 1%nat degenerate in
  read degenerate 1%nat = Some [i64 0; i64 0]
  /\ fst after = Ok tt
  /\ read (snd after) 1%nat = Some [nan; nan]
  /\ _cdf_map (self (snd after))
     = Some (scipy.sorted_interp1d [nan; nan] [i64 0; i64 1])
  /\ numpy.isclose nan one = false.
Proof. vm_compute. auto 6. Qed.

Lemma fit_ends_at_one_witness :
  exists w' used xa' f l,
    fit_from_cdf 0%nat 3%nat degenerate = (Ok tt, w')
    /\ _cdf_map (self w') = Some f
    /\ heap w' !! 3%nat = Some used /\ heap w' !! 0%nat = Some xa'
    /\ scipy.new_interp1d (data used) (data xa') = Ok f
    /\ last (data used) = Some l
    /\ numpy.isclose l one = true.
Proof.
  destruct (fit_ends_at_one degenerate 0%nat 3%nat
              (array [i64 0; i64 1]) (array [i64 1; i64 2]))
    as [Hcdf _]; try reflexivity.
  apply (Hcdf (i64 2)). reflexivity.
Defined.

(** *** In-place division *)

Lemma fmap_fixed {A} (g : A -> A) (l : list A) :
  g <$> l = l -> forall e, e ∈ l -> g e = e.
Proof.
  induction l as [|a l IH]; intros Heq e He; [by apply elem_of_nil in He|].
  injection Heq as Ha Hl. apply elem_of_cons in He as [->|He]; auto.
Qed.

Lemma divided_changes ca v :
  last (data ca) = Some v -> numpy.isclose v one = false ->
  (exists e, e ∈ data ca /\ e <> nan) -> divided ca v <> ca.
Proof.
  intros Hv Hc (e & He & Hnan) Heq.
  assert (Hfix : forall e', e' ∈ data ca -> fdiv e' v = e').
  { apply (f_equal data) in Heq. unfold divided in Heq. cbn [data] in Heq.
    by apply (fmap_fixed (fun e => fdiv e v)). }
  assert (Hvnan : v = nan).
  { pose proof (Hfix v (last_Some_elem_of _ _ Hv)) as Hvv.
    rewrite div_self in Hvv. destruct v as [s|s| |s m ex]; try done.
    cbn in Hvv. injection Hvv as <- <- <-. by vm_compute in Hc. }
  subst v. specialize (Hfix e He).
  destruct e as [s|s| |s m ex]; done.
Qed.

Lemma divided_all_nan ca v :
  last (data ca) = Some v -> (forall e, e ∈ data ca -> e = nan) ->
  divided ca v = ca.
Proof.
  intros Hv Hall. destruct ca as [sh d]. unfold divided. cbn [shape data] in *.
  f_equal. induction d as [|e d IH]; [done|].
  assert (He : e = nan) by (apply Hall; left).
  assert (Hvn : v = nan) by (by apply Hall, last_Some_elem_of).
  subst. cbn [fmap list_fmap]. f_equal.
  destruct d as [|e' d]; [done|]. apply IH.
  - by rewrite last_cons_cons in Hv.
  - intros e'' He''. apply Hall. by right.
Qed.

(** C9 (amended). [fit_from_cdf(x, cdf)], called with a [cdf] whose final
    value [v] is not close to 1, replaces the contents of the caller's array
    by its entries divided by [v]; these differ from the contents before the
    call unless every entry was NaN, when dividing leaves NaN throughout.
    Every other array is left as it was, and so is [cdf] itself when [v] is
    close to 1. [fit_from_pdf], [transform_cdf] and [transform_pdf] leave
    every array of the caller as it was. *)
Theorem fit_from_cdf_divides_in_place w x cdf xa ca v :
  heap w !! x = Some xa -> heap w !! cdf = Some ca ->
  shapes_ok xa ca = true -> last (data ca) = Some v ->
  let after := heap (snd (fit_from_cdf x cdf w)) in
  (numpy.isclose v one = false ->
     after !! cdf = Some (divided ca v)
     /\ ((exists e, e ∈ data ca /\ e <> nan) -> divided ca v <> ca)
     /\ ((forall e, e ∈ data ca -> e = nan) -> divided ca v = ca))
  /\ (numpy.isclose v one = true -> after = heap w)
  /\ (forall r, r <> cdf -> after !! r = heap w !! r)
  /\ (forall r a x' d', heap w !! r = Some a ->
        heap (snd (fit_from_pdf x' d' w)) !! r = Some a
        /\ heap (snd (transform_cdf x' d' w)) !! r = Some a
        /\ heap (snd (transform_pdf x' d' w)) !! r = Some a).
Proof.
  intros Hx Hc Hs Hv after.
  assert (Hafter : after = <[cdf := fitted_cdf ca v]> (heap w)).
  { subst after. rewrite (fit_from_cdf_run _ _ _ _ _ _ Hx Hc Hs Hv).
    cbn zeta. by destruct (scipy.new_interp1d _ _). }
  split; [|split; [|split]].
  - intros Hfar. split; [|split].
    + rewrite Hafter. unfold fitted_cdf. rewrite Hfar.
      apply list_lookup_insert_eq. by eapply lookup_lt_Some.
    + by apply divided_changes.
    + by apply divided_all_nan.
  - intros Hclose. rewrite Hafter. unfold fitted_cdf. rewrite Hclose.
    by apply list_insert_id.
  - intros r Hr. subst after. by apply fit_from_cdf_frame.
  - intros r a x' d' Hr. split; [|split].
    + by apply fit_from_pdf_frame.
    + by apply transform_cdf_frame.
    + by apply transform_pdf_frame.
Qed.

(** C9, refuted as stated: [fit_from_cdf] on [x = [0., 1.]] and
    [cdf = [nan, nan]], whose final value is not close to 1, leaves in [cdf]
    what was there. *)
Lemma divides_in_place_counterexample :
  read degenerate 2%nat = Some [nan; nan]
  /\ numpy.isclose nan one = false
  /\ fst (fit_from_cdf 0%nat 2%nat degenerate) = Ok tt
  /\ heap (snd (fit_from_cdf 0%nat 2%nat degenerate)) !! 2%nat
     = heap degenerate !! 2%nat.
Proof. vm_compute. auto. Qed.

Lemma divides_in_place_witness :
  heap (snd (fit_from_cdf 0%nat 3%nat degenerate)) !! 3%nat
  = Some (array [b64 1 (-1); i64 1])
  /\ divided (array [i64 1; i64 2]) (i64 2) <> array [i64 1; i64 2].
Proof.
  destruct (fit_from_cdf_divides_in_place degenerate 0%nat 3%nat
              (array [i64 0; i64 1]) (array [i64 1; i64 2]) (i64 2))
    as [Hfar _]; try reflexivity.
  destruct Hfar as (Hafter & Hchanged & _); [reflexivity|].
  split.
  - exact Hafter.
  - apply Hchanged. exists (i64 1). split; [left|discriminate].
Defined.

End Float64Fit.

(** ** [fit_from_pdf] is [fit_from_cdf] on the integrated PDF *)

Section RefinementOfFits.
Context {F : Type} `{Number F}.
Implicit Types (w : world F) (x cdf pdf dep r : ref).
Implicit Types (xa ca pa da a : ndarray F).

(** C3. For [x] and [pdf] one-dimensional, of one shape and with at least
    two entries, [fit_from_pdf(x, pdf)] does what [fit_from_cdf(x, c)] does on
    a new array [c] that holds the cumulative trapezoidal integral of [pdf]
    over [x], 0 at the first sample, divided by its final value. Both calls
    return, and they end in the same state: the instance holds the mapping
    [interp1d(used, x)], where [used] is what [fit_from_cdf] leaves in [c]
    ([c] itself when its last entry is close to 1, else [c] divided by it),
    and after either fit [transform_cdf] returns, for every array of
    probabilities, the values of that one mapping. *)
Theorem fit_from_pdf_refines_fit_from_cdf w x pdf xa pa :
  heap w !! x = Some xa -> heap w !! pdf = Some pa ->
  wf_array xa -> wf_array pa -> shapes_ok xa pa = true ->
  (2 <= length (data pa))%nat ->
  let c := array (spec_normalised_cdf (data pa) (data xa)) in
  let cdf := length (heap w) in
  let by_pdf := fit_from_pdf x pdf w in
  let by_cdf := fit_from_cdf x cdf {| self := self w; heap := heap w ++ [c] |} in
  exists w' f used v,
    by_pdf = (Ok tt, w') /\ by_cdf = (Ok tt, w')
    /\ _cdf_map (self w') = Some f
    /\ last (data c) = Some v /\ used = fitted_cdf c v
    /\ heap w' !! cdf = Some used
    /\ heap w' !! x = Some xa
    /\ scipy.new_interp1d (data used) (data xa) = Ok f
    /\ (forall x' q qa, heap w' !! q = Some qa ->
          exists r w'',
            transform_cdf x' q w' = (Ok (r, q), w'')
            /\ read w'' r = Some (scipy.call f (data qa))).
Proof.
  intros Hx Hp Hwx Hwp Hs H2 c cdf by_pdf by_cdf.
  pose proof (shapes_ok_lengths _ _ Hwx Hwp Hs) as Hl.
  assert (data pa <> []) as Hne by (destruct (data pa); [simpl in *; lia|done]).
  pose proof (lookup_lt_Some _ _ _ Hx) as Hxlt.
  destruct (shapes_ok_true _ _ Hs) as [Hnd Hsh].
  assert (by_pdf = by_cdf) as Heq.
  { subst by_pdf by_cdf c. rewrite <- pdf_to_cdf_spec by done.
    by apply fit_from_pdf_run. }
  assert (length (spec_normalised_cdf (data pa) (data xa)) = length (data pa))
    as Hlsp.
  { unfold spec_normalised_cdf. by rewrite length_fmap, length_seq. }
  assert (length (data c) = length (data pa)) as Hlc by exact Hlsp.
  destruct (last (data c)) as [v|] eqn:Hv; cycle 1.
  { apply last_None in Hv. rewrite Hv in Hlc. simpl in Hlc. lia. }
  set (w0 := {| self := self w; heap := heap w ++ [c] |}) in *.
  assert (heap w0 !! x = Some xa) as Hx0 by (by apply lookup_app_l_Some).
  assert (heap w0 !! cdf = Some c) as Hc0 by apply lookup_alloc.
  assert (shapes_ok xa c = true) as Hs0.
  { unfold shapes_ok. rewrite Hnd. cbn. apply bool_decide_eq_true.
    rewrite (wf_array_1d xa Hwx Hnd). unfold c. cbn [shape array].
    congruence. }
  assert (length (data xa) = length (data c)) as Hl0 by congruence.
  pose proof (fit_from_cdf_ok w0 x cdf xa c v Hx0 Hc0 Hs0 Hv Hl0) as Hcdf.
  cbn zeta in Hcdf. rewrite decide_False in Hcdf by (unfold cdf; lia).
  set (used := fitted_cdf c v) in *.
  set (f := scipy.sorted_interp1d (data used) (data xa)) in *.
  subst w0. cbn [heap] in Hcdf. unfold cdf in Hcdf at 2.
  rewrite insert_alloc in Hcdf.
  eexists _, f, used, v. split; [by rewrite Heq|]. split; [exact Hcdf|].
  cbn [self heap _cdf_map]. do 3 (split; [done|]). split; [apply lookup_alloc|].
  split; [by apply lookup_app_l_Some|]. split.
  { apply new_interp1d_ok.
    - subst used. rewrite length_fitted_cdf. congruence.
    - intros Hnil. apply (f_equal length) in Hnil. subst used.
      rewrite length_fitted_cdf in Hnil. simpl in Hnil. lia. }
  intros x' q qa Hq. eexists _, _. split.
  { by eapply transform_cdf_fitted. }
  unfold read. cbn [heap]. by rewrite lookup_alloc.
Qed.

End RefinementOfFits.

Module Float64Refinement.
Import Binary64 Float64Examples.

Lemma fit_from_pdf_refines_witness :
  let c := array (spec_normalised_cdf [i64 1; i64 1; i64 1]
                    [i64 0; i64 1; i64 2]) in
  exists w' f used v,
    fit_from_pdf 2%nat 1%nat unfitted = (Ok tt, w')
    /\ fit_from_cdf 2%nat 3%nat
         {| self := self unfitted; heap := heap unfitted ++ [c] |}
       = (Ok tt, w')
    /\ _cdf_map (self w') = Some f
    /\ last (data c) = Some v /\ used = fitted_cdf c v
    /\ heap w' !! 3%nat = Some used
    /\ heap w' !! 2%nat = Some (array [i64 0; i64 1; i64 2])
    /\ scipy.new_interp1d (data used) [i64 0; i64 1; i64 2] = Ok f
    /\ (forall x' q qa, heap w' !! q = Some qa ->
          exists r w'',
            transform_cdf x' q w' = (Ok (r, q), w'')
            /\ read w'' r = Some (scipy.call f (data qa))).
Proof.
  apply (fit_from_pdf_refines_fit_from_cdf unfitted 2%nat 1%nat
           (array [i64 0; i64 1; i64 2]) (array [i64 1; i64 1; i64 1]));
    try reflexivity.
  simpl. lia.
Defined.

End Float64Refinement.

(** ** The entries of [np.gradient] *)

Section GradientLookup.
Context {F : Type} `{Number F}.

Lemma item_nat (a : list F) (i : nat) :
  numpy.item a (Z.of_nat i) = nth i a zero.
Proof.
  unfold numpy.item. destruct (Z.ltb_spec (Z.of_nat i) 0); [lia|].
  by rewrite Nat2Z.id.
Qed.

Lemma item_neg (a : list F) (k : nat) :
  (0 < k <= length a)%nat ->
  numpy.item a (- Z.of_nat k) = nth (length a - k) a zero.
Proof.
  intros Hk. unfold numpy.item.
  destruct (Z.ltb_spec (- Z.of_nat k) 0); [|lia].
  f_equal. lia.
Qed.

Lemma lookup_cons_S {A} (a : A) (l : list A) (i : nat) :
  (a :: l) !! S i = l !! i.
Proof. reflexivity. Qed.

Lemma nth_diff (a : list F) (i : nat) :
  (S i < length a)%nat ->
  nth i (numpy.diff a) zero = (nth (S i) a zero - nth i a zero)%num.
Proof. intros Hi. by rewrite nth_lookup, diff_lookup. Qed.

Lemma interior_lookup (d f : list F) (k : nat) :
  length f = S (length d) -> (S (S k) < length f)%nat ->
  numpy.interior d f !! k
  = Some (numpy.interior_point (nth k d zero) (nth (S k) d zero)
            (nth k f zero) (nth (S k) f zero) (nth (S (S k)) f zero)).
Proof.
  revert d f; induction k as [|k IH]; intros d f Hl Hk.
  - destruct d as [|dx1 [|dx2 d]], f as [|f0 [|f1 [|f2 f]]];
      simpl in *; try lia.
    done.
  - destruct d as [|dx1 [|dx2 d]], f as [|f0 [|f1 [|f2 f]]];
      simpl in Hl, Hk; try lia.
    change (numpy.interior (dx1 :: dx2 :: d) (f0 :: f1 :: f2 :: f))
      with (numpy.interior_point dx1 dx2 f0 f1 f2
              :: numpy.interior (dx2 :: d) (f1 :: f2 :: f)).
    rewrite lookup_cons_S, IH by (simpl; lia). done.
Qed.

(** The entries of the gradient where the spacing is not constant. *)
Lemma gradient_nonuniform (f x : list F) :
  length x = length f -> (3 <= length f)%nat ->
  let d := numpy.diff x in
  let n := length f in
  numpy.constant_spacing (nth 0 d zero) d = false ->
  exists g, numpy.gradient f x = Ok g
    /\ g !! 0%nat = Some (numpy.first_edge (nth 0 d zero) (nth 1 d zero)
                        (nth 0 f zero) (nth 1 f zero) (nth 2 f zero))
    /\ (forall i, (1 <= i)%nat -> (S i < n)%nat ->
          g !! i = Some (numpy.interior_point
                           (nth (i - 1) d zero) (nth i d zero)
                           (nth (i - 1) f zero) (nth i f zero)
                           (nth (S i) f zero)))
    /\ g !! (n - 1)%nat
       = Some (numpy.last_edge (nth (n - 3) d zero) (nth (n - 2) d zero)
                 (nth (n - 3) f zero) (nth (n - 2) f zero)
                 (nth (n - 1) f zero)).
Proof.
  intros Hl H3 d n Hc. unfold numpy.gradient.
  rewrite Hl, Nat.eqb_refl. cbn [negb]. fold d.
  pose proof (length_diff x) as Hd. fold d in Hd.
  assert (Hfd : length f = S (length d)) by lia.
  pose proof (length_interior d f Hfd) as Hi.
  destruct d as [|d0 d'] eqn:Ed; [simpl in Hd; lia|].
  destruct (Nat.ltb_spec (length f) 3) as [|_]; [lia|].
  cbn [nth] in Hc. rewrite Hc. eexists. split; [reflexivity|].
  rewrite <- Ed in *.
  split; [|split].
  - cbn [lookup list_lookup].
    rewrite !(item_nat _ 0), !(item_nat _ 1), (item_nat _ 2). done.
  - intros i Hi1 Hin. destruct i as [|i]; [lia|].
    rewrite lookup_cons_S, lookup_app_l by lia.
    rewrite interior_lookup by lia.
    replace (S i - 1)%nat with i by lia. done.
  - replace (n - 1)%nat with (S (length (numpy.interior d f))) by lia.
    rewrite lookup_cons_S, lookup_app_r, Nat.sub_diag by lia.
    cbn [lookup list_lookup].
    change (-2) with (- Z.of_nat 2). change (-1) with (- Z.of_nat 1).
    change (-3) with (- Z.of_nat 3).
    rewrite !item_neg by lia. do 2 f_equal; f_equal; lia.
Qed.

End GradientLookup.

(** ** binary64: where the transformed [x] does not change *)

Module Float64Gradient.
Import Binary64 Float64Examples.
Implicit Types (w : world float64) (x cdf pdf dep r : ref).
Implicit Types (xa ca pa da : ndarray float64).

Ltac fcases x := destruct x as [[]|[]| |[] ? ?].

(** Two equal numbers differ by a zero; two equal infinities by NaN. *)
Lemma feq_sub (a b : float64) : feq a b = true -> zero_or_nan (fsub b a) = true.
Proof.
  destruct a as [s|s| |s m e], b as [s'|s'| |s' m' e'];
    try reflexivity; try discriminate;
    try (destruct s; discriminate);
    try (destruct s'; discriminate);
    try (destruct s, s'; (reflexivity || discriminate)).
  cbn. unfold SFeqb, SFcompare.
  destruct s, s'; try done.
  all: destruct (Z.compare_spec e e') as [->| |]; try done.
  all: destruct (Pos.compare_cont Eq m m') eqn:Hm; try done.
  all: apply Pos.compare_eq in Hm as ->; intros _.
  all: unfold SFsub; rewrite Z.sub_diag; done.
Qed.

Lemma fadd_nan_r (a : float64) : fadd a nan = nan.
Proof. by destruct a. Qed.

(** Two terms with infinite coefficients of opposite signs, on values that
    are not negative, add up to NaN. *)
Lemma cancelling_sum (a b f0 f1 : float64) :
  cancelling a b = true -> not_negative f0 = true -> not_negative f1 = true ->
  fadd (fmul a f0) (fmul b f1) = nan.
Proof.
  intros Hc H0 H1.
  destruct b as [sb|sb| |sb mb eb]; [| |apply fadd_nan_r|];
    (destruct a as [sa|sa| |sa ma ea]; try discriminate Hc; try reflexivity).
  destruct sa, sb; try discriminate Hc;
    fcases f0; try discriminate H0; fcases f1; try discriminate H1;
    reflexivity.
Qed.

Lemma zero_or_nan_mul (a f0 : float64) :
  zero_or_nan a = true -> zero_or_nan (fmul a f0) = true.
Proof. intros Ha. fcases a; try discriminate Ha; fcases f0; reflexivity. Qed.

Lemma stencil_left (a b c f0 f1 f2 : float64) :
  cancelling a b = true -> not_negative f0 = true -> not_negative f1 = true ->
  numpy.stencil a b c f0 f1 f2 = nan.
Proof.
  intros Hc H0 H1. unfold numpy.stencil.
  by rewrite (cancelling_sum _ _ _ _ Hc H0 H1).
Qed.

Lemma stencil_right (a b c f0 f1 f2 : float64) :
  zero_or_nan a = true -> cancelling b c = true ->
  not_negative f1 = true -> not_negative f2 = true ->
  numpy.stencil a b c f0 f1 f2 = nan.
Proof.
  intros Ha Hc H1 H2. unfold numpy.stencil.
  pose proof (zero_or_nan_mul a f0 Ha) as Hz.
  destruct (fmul a f0) as [sz| | |]; try discriminate Hz; [|reflexivity].
  destruct c as [sc|sc| |sc mc ec]; [| |apply fadd_nan_r|];
    (destruct b as [sb|sb| |sb mb eb]; try discriminate Hc; try reflexivity).
  destruct sb, sc; try discriminate Hc;
    fcases f1; try discriminate H1; fcases f2; try discriminate H2;
    destruct sz; reflexivity.
Qed.

(** The coefficients where the spacing on the left is zero or NaN. *)
Lemma interior_coefficients_left (d1 dx2 : float64) :
  zero_or_nan d1 = true ->
  cancelling (fdiv (fopp dx2) (fmul d1 (fadd d1 dx2)))
             (fdiv (fsub dx2 d1) (fmul d1 dx2)) = true.
Proof.
  intros Hd. fcases d1; try discriminate Hd; fcases dx2; reflexivity.
Qed.

Lemma first_edge_coefficients (d1 dx2 : float64) :
  zero_or_nan d1 = true ->
  cancelling (fdiv (fopp (fadd (fmul two d1) dx2)) (fmul d1 (fadd d1 dx2)))
             (fdiv (fadd d1 dx2) (fmul d1 dx2)) = true.
Proof.
  intros Hd. fcases d1; try discriminate Hd; fcases dx2; reflexivity.
Qed.

(** The coefficients where the spacing on the right is zero or NaN. *)
Lemma interior_coefficients_right (dx1 d2 : float64) :
  zero_or_nan d2 = true ->
  zero_or_nan (fdiv (fopp d2) (fmul dx1 (fadd dx1 d2))) = true
  /\ cancelling (fdiv (fsub d2 dx1) (fmul dx1 d2))
                (fdiv dx1 (fmul d2 (fadd dx1 d2))) = true.
Proof.
  intros Hd. fcases d2; try discriminate Hd; fcases dx1;
    try (split; reflexivity).
  all: split; [|reflexivity].
  all: cbn [fadd fmul fdiv fopp float64_number SFadd SFopp negb].
  all: destruct (SFmul _ _ _ _); reflexivity.
Qed.

Lemma last_edge_coefficients (dx1 d2 : float64) :
  zero_or_nan d2 = true ->
  zero_or_nan (fdiv d2 (fmul dx1 (fadd dx1 d2))) = true
  /\ cancelling (fdiv (fopp (fadd d2 dx1)) (fmul dx1 d2))
                (fdiv (fadd (fmul two d2) dx1) (fmul d2 (fadd dx1 d2))) = true.
Proof.
  intros Hd. fcases d2; try discriminate Hd; fcases dx1;
    try (split; reflexivity).
  all: split; [|reflexivity].
  all: cbn [fadd fmul fdiv fopp float64_number SFadd SFopp negb].
  all: destruct (SFmul _ _ _ _); reflexivity.
Qed.

(** Where [x[j] == x[j + 1]], and [f] is not negative at the two points, the
    gradient on a spacing that is not constant is NaN at both. *)
Lemma gradient_flat_nan (f x : list float64) (j : nat) :
  length x = length f -> (3 <= length f)%nat ->
  numpy.constant_spacing (nth 0 (numpy.diff x) zero) (numpy.diff x) = false ->
  (S j < length f)%nat ->
  feq (nth j x zero) (nth (S j) x zero) = true ->
  not_negative (nth j f zero) = true ->
  not_negative (nth (S j) f zero) = true ->
  exists g, numpy.gradient f x = Ok g
            /\ g !! j = Some nan /\ g !! S j = Some nan.
Proof.
  intros Hl H3 Hc Hj Heq Hfj Hfj'.
  destruct (gradient_nonuniform f x Hl H3 Hc) as (g & Hg & H0 & Hi & Hn).
  assert (Hd : zero_or_nan (nth j (numpy.diff x) zero) = true).
  { rewrite nth_diff by lia. by apply feq_sub. }
  exists g. split; [done|]. split.
  - destruct j as [|j].
    + rewrite H0. f_equal. unfold numpy.first_edge.
      apply stencil_left; [|done..]. by apply first_edge_coefficients.
    + rewrite Hi by lia. f_equal. unfold numpy.interior_point.
      replace (S j - 1)%nat with j by lia.
      destruct (interior_coefficients_right
                  (nth j (numpy.diff x) zero) _ Hd) as [Ha Hbc].
      by apply stencil_right.
  - destruct (decide (S (S j) = length f)) as [Hlast|Hin].
    + replace (S j) with (length f - 1)%nat by lia. rewrite Hn.
      f_equal. unfold numpy.last_edge.
      replace (length f - 2)%nat with j in * by lia.
      replace (length f - 1)%nat with (S j) in * by lia.
      destruct (last_edge_coefficients
                  (nth (length f - 3) (numpy.diff x) zero) _ Hd) as [Ha Hbc].
      by apply stencil_right.
    + rewrite Hi by lia. f_equal. unfold numpy.interior_point.
      replace (S j - 1)%nat with j by lia.
      apply stencil_left; [|done..]. by apply interior_coefficients_left.
Qed.

(** C7 (amended). In [transform_pdf] on one-dimensional [x] and [pdf] of one
    length, at least 3: where two consecutive transformed [x] values are
    equal, the output PDF is NaN at both of them and the call returns, given
    that the transformed [x] values are not equally spaced throughout and
    that the normalised CDF is not negative at the two points. (The claim
    says the same where the transformed [x] decreases; there the output is
    the value of the difference formula.) *)
Theorem flat_points_are_nan w f x pdf xa pa (j : nat) :
  _cdf_map (self w) = Some f ->
  heap w !! x = Some xa -> heap w !! pdf = Some pa ->
  ndim xa = 1%nat -> ndim pa = 1%nat ->
  length (data xa) = length (data pa) -> (3 <= length (data pa))%nat ->
  let c := data (pdf_to_cdf (data pa) (data xa)) in
  let nx := scipy.call f c in
  numpy.constant_spacing (nth 0 (numpy.diff nx) zero) (numpy.diff nx) = false ->
  (S j < length nx)%nat ->
  feq (nth j nx zero) (nth (S j) nx zero) = true ->
  not_negative (nth j c zero) = true ->
  not_negative (nth (S j) c zero) = true ->
  exists x' pdf' w' g,
    transform_pdf x pdf w = (Ok (x', pdf'), w')
    /\ read w' x' = Some nx
    /\ read w' pdf' = Some g
    /\ g !! j = Some nan /\ g !! S j = Some nan.
Proof.
  intros Hf Hx Hp Hnx Hnp Hl H3 c nx Hc Hj Heq Hcj Hcj'.
  assert (Hne : data pa <> []) by (destruct (data pa); simpl in *; [lia|done]).
  pose proof (transform_pdf_run _ _ _ _ _ _ Hf Hx Hp Hnx Hnp Hl Hne) as Hr.
  cbn zeta in Hr. cbn [data] in Hr. fold c in Hr. fold nx in Hr.
  assert (Hlc : length c = length (data pa)) by (by apply length_pdf_to_cdf).
  assert (Hlnx : length nx = length c) by apply length_call.
  destruct (gradient_flat_nan c nx j) as (g & Hg & Hgj & Hgj'); try done; try lia.
  rewrite Hg in Hr.
  eexists _, _, _, g. split; [exact Hr|]. unfold read. cbn [heap].
  set (cdf_array := pdf_to_cdf (data pa) (data xa)).
  set (x_array := {| shape := shape cdf_array; data := nx |}).
  split; [|split; [|done]].
  - rewrite lookup_app_l by (rewrite !length_app; simpl; lia).
    replace (S (length (heap w))) with (length (heap w ++ [cdf_array]))
      by (rewrite length_app; simpl; lia).
    by rewrite lookup_alloc.
  - replace (S (S (length (heap w))))
      with (length ((heap w ++ [cdf_array]) ++ [x_array]))
      by (rewrite !length_app; simpl; lia).
    by rewrite lookup_alloc.
Qed.

(** C7, refuted as stated: after a fit on [x = [0., 2., 1., 3.]], the
    transformed [x] of the test distribution is [[0., 2., 1., 3.]], which
    decreases from the second entry to the third, and the output PDF is
    [[0.875, -0.625, -0.75, 1.25]]: finite there, not NaN. *)
Lemma flat_points_counterexample :
  let after := transform_pdf 2%nat 3%nat scrambled in
  fst after = Ok (5%nat, 6%nat)
  /\ read (snd after) 5%nat = Some [i64 0; i64 2; i64 1; i64 3]
  /\ flt (i64 1) (i64 2) = true
  /\ read (snd after) 6%nat
     = Some [b64 7 (-3); b64 (-5) (-3); b64 (-3) (-2); b64 5 (-2)].
Proof. vm_compute. auto. Qed.

Lemma flat_points_witness :
  exists x' pdf' w' g,
    transform_pdf 6%nat 7%nat fitted = (Ok (x', pdf'), w')
    /\ read w' x' = Some [i64 0; i64 1; i64 1; i64 2]
    /\ read w' pdf' = Some g
    /\ g !! 1%nat = Some nan /\ g !! 2%nat = Some nan.
Proof.
  pose proof (flat_points_are_nan fitted
                (scipy.sorted_interp1d [i64 0; b64 1 (-1); i64 1]
                   [i64 0; i64 1; i64 2])
                6%nat 7%nat
                (array [i64 0; i64 1; i64 2; i64 3])
                (array [i64 1; i64 0; i64 0; i64 1]) 1%nat) as Hnan.
  cbn zeta in Hnan.
  assert (Hcall : scipy.call
                    (scipy.sorted_interp1d [i64 0; b64 1 (-1); i64 1]
                       [i64 0; i64 1; i64 2])
                    (data (pdf_to_cdf
                             (data (array [i64 1; i64 0; i64 0; i64 1]))
                             (data (array [i64 0; i64 1; i64 2; i64 3]))))
                  = [i64 0; i64 1; i64 1; i64 2])
    by (vm_compute; reflexivity).
  rewrite Hcall in Hnan. apply Hnan.
  - vm_compute. reflexivity.
  - reflexivity.
  - reflexivity.
  - reflexivity.
  - reflexivity.
  - reflexivity.
  - simpl. lia.
  - vm_compute. reflexivity.
  - simpl. lia.
  - vm_compute. reflexivity.
  - vm_compute. reflexivity.
  - vm_compute. reflexivity.
Defined.

End Float64Gradient.

(** ** binary64: the order of the knots *)

Module Float64Order.
Import Binary64.
Implicit Types (a b c v q : float64) (l cs xs : list float64).

Lemma SFcompare_finite (s1 s2 : bool) (m1 m2 : positive) (e1 e2 : Z) :
  SFcompare (S754_finite s1 m1 e1) (S754_finite s2 m2 e2)
  = match s1, s2 with
    | true, false => Some Lt
    | false, true => Some Gt
    | false, false =>
        match e1 ?= e2 with
        | Lt => Some Lt
        | Gt => Some Gt
        | Eq => Some (m1 ?= m2)%positive
        end
    | true, true =>
        match e1 ?= e2 with
        | Lt => Some Gt
        | Gt => Some Lt
        | Eq => Some (CompOpp (m1 ?= m2)%positive)
        end
    end.
Proof. destruct s1, s2; try reflexivity; cbn; destruct (e1 ?= e2); reflexivity. Qed.

(** [<] on doubles, and numpy's NaN-last order, are asymmetric. *)
Lemma SFltb_asym (a b : float64) : SFltb a b = true -> SFltb b a = false.
Proof.
  unfold SFltb, SFcompare.
  destruct a as [sa|sa| |sa ma ea], b as [sb|sb| |sb mb eb];
    try destruct sa; try destruct sb; try done.
  all: fold (Pos.compare ma mb); fold (Pos.compare mb ma).
  all: rewrite (Z.compare_antisym ea eb), (Pos.compare_antisym ma mb).
  all: destruct (ea ?= eb); try done; cbn; by destruct (ma ?= mb)%positive.
Qed.

Lemma SFeqb_refl_finite (s : bool) (m : positive) (e : Z) :
  SFeqb (S754_finite s m e) (S754_finite s m e) = true.
Proof.
  unfold SFeqb, SFcompare. fold (Pos.compare m m).
  rewrite Z.compare_refl, Pos.compare_refl. by destruct s.
Qed.

Lemma less_asym (a b : float64) :
  numpy.less a b = true -> numpy.less b a = false.
Proof.
  unfold numpy.less. cbn [flt feq float64_number].
  intros Hab. destruct (SFltb a b) eqn:Hlt.
  - rewrite (SFltb_asym _ _ Hlt).
    destruct a as [sa|sa| |sa ma ea]; try destruct sa; try done.
    all: by rewrite SFeqb_refl_finite.
  - cbn in Hab. apply andb_true_iff in Hab as [Hb Ha].
    destruct b as [sb|sb| |sb mb eb]; try destruct sb; try done.
    + by rewrite Ha.
    + by rewrite SFeqb_refl_finite in Hb.
    + by rewrite SFeqb_refl_finite in Hb.
Qed.

Lemma SFltb_trans a b c :
  SFltb a b = true -> SFltb b c = true -> SFltb a c = true.
Proof.
  unfold SFltb.
  destruct a as [sa|sa| |sa ma ea], b as [sb|sb| |sb mb eb],
    c as [sc|sc| |sc mc ec];
    try (destruct sa); try (destruct sb); try (destruct sc);
    try done.
  all: rewrite !SFcompare_finite.
  all: destruct (Z.compare_spec ea eb), (Z.compare_spec eb ec),
         (Z.compare_spec ea ec); try done; try lia.
  all: destruct (Pos.compare_spec ma mb), (Pos.compare_spec mb mc),
         (Pos.compare_spec ma mc); try done; try lia.
Qed.

Lemma SFltb_irrefl a : SFltb a a = false.
Proof.
  destruct (SFltb a a) eqn:E; [|done]. by rewrite (SFltb_asym _ _ E) in E.
Qed.

(** Numbers that compare are not NaN, and sort in the order of [<]. *)
Lemma less_lt a b : SFltb a b = true -> numpy.less a b = true.
Proof. intros Hab. unfold numpy.less. cbn [flt float64_number]. by rewrite Hab. Qed.

Lemma less_irrefl a : numpy.less a a = false.
Proof.
  unfold numpy.less. cbn [flt feq float64_number]. rewrite SFltb_irrefl.
  by destruct (SFeqb a a).
Qed.

Lemma increasing_cons a b l :
  increasing (a :: b :: l) = SFltb a b && increasing (b :: l).
Proof. reflexivity. Qed.

Lemma increasing_tail a l : increasing (a :: l) = true -> increasing l = true.
Proof.
  destruct l as [|b l]; [done|]. rewrite increasing_cons.
  by intros [_ ?]%andb_true_iff.
Qed.

(** In an increasing list the head is below every later entry. *)
Lemma increasing_head a l :
  increasing (a :: l) = true -> Forall (fun b => SFltb a b = true) l.
Proof.
  revert a; induction l as [|b l IH]; intros a Hi; [constructor|].
  rewrite increasing_cons in Hi. apply andb_true_iff in Hi as [Hab Hl].
  constructor; [exact Hab|].
  specialize (IH b Hl). rewrite Forall_forall in IH |- *.
  intros c Hc. apply SFltb_trans with b; [exact Hab|by apply IH].
Qed.

(** Sorting knots whose abscissae increase changes nothing. *)
Lemma sort_knots_increasing (kn : list (float64 * float64)) :
  increasing (fst <$> kn) = true -> scipy.sort_knots kn = kn.
Proof.
  induction kn as [|p kn IH]; intros Hi; [done|].
  cbn [scipy.sort_knots foldr]. cbn [fmap list_fmap] in Hi.
  fold (scipy.sort_knots kn). rewrite IH by by eapply increasing_tail.
  destruct kn as [|q kn]; [done|]. cbn [scipy.insert_knot].
  cbn [fmap list_fmap] in Hi. rewrite increasing_cons in Hi.
  apply andb_true_iff in Hi as [Hpq _].
  by rewrite (less_asym _ _ (less_lt _ _ Hpq)).
Qed.

Lemma sorted_interp1d_increasing cs xs :
  increasing cs = true -> length cs = length xs ->
  scipy.sorted_interp1d cs xs
  = {| scipy.interp_x := cs; scipy.interp_y := xs |}.
Proof.
  intros Hi Hl. unfold scipy.sorted_interp1d.
  rewrite sort_knots_increasing by (rewrite fst_zip by lia; done).
  by rewrite fst_zip, snd_zip by lia.
Qed.

(** [searchsorted] finds a knot at its own index. *)
Lemma searchsorted_knot l (i : nat) v :
  increasing l = true -> l !! i = Some v -> numpy.searchsorted l v = i.
Proof.
  revert i; induction l as [|e l IH]; intros i Hi Hv; [done|].
  cbn [numpy.searchsorted].
  destruct i as [|i].
  - injection Hv as ->. by rewrite less_irrefl.
  - cbn in Hv. pose proof (increasing_head _ _ Hi) as Hall.
    rewrite Forall_forall in Hall.
    assert (Hev : SFltb e v = true)
      by (apply Hall; by eapply list_elem_of_lookup_2).
    rewrite (less_lt _ _ Hev). f_equal.
    apply IH; [by eapply increasing_tail|done].
Qed.

Lemma item_lookup l (i : nat) v :
  l !! i = Some v -> numpy.item l (Z.of_nat i) = v.
Proof. intros Hv. rewrite item_nat, nth_lookup, Hv. done. Qed.

(** At its knot [i] the interpolant evaluates the line through the knots
    [i - 1] and [i] (through 0 and 1 for [i = 0]). *)
Lemma call_linear_knot cs xs (i : nat) v :
  increasing cs = true -> length cs = length xs -> (2 <= length cs)%nat ->
  cs !! i = Some v ->
  scipy.call_linear {| scipy.interp_x := cs; scipy.interp_y := xs |} v
  = round_trip_entry cs xs i.
Proof.
  intros Hi Hl H2 Hv. unfold scipy.call_linear, round_trip_entry.
  cbn [scipy.interp_x scipy.interp_y].
  rewrite (searchsorted_knot _ _ _ Hi Hv).
  pose proof (lookup_lt_Some _ _ _ Hv) as Hlt.
  set (lo := Nat.pred (Nat.max i 1)).
  replace (Z.min (Z.max (Z.of_nat i) 1) (Z.of_nat (length cs) - 1))
    with (Z.of_nat (S lo)) by lia.
  replace (Z.of_nat (S lo) - 1) with (Z.of_nat lo) by lia.
  rewrite !item_nat. by rewrite (nth_lookup_Some _ _ _ _ Hv).
Qed.

Lemma call_knots cs xs :
  increasing cs = true -> length cs = length xs -> (2 <= length cs)%nat ->
  scipy.call (scipy.sorted_interp1d cs xs) cs
  = round_trip_entry cs xs <$> seq 0 (length cs).
Proof.
  intros Hi Hl H2. rewrite sorted_interp1d_increasing by done.
  apply list_eq. intros i. unfold scipy.call. rewrite !list_lookup_fmap.
  destruct (cs !! i) as [v|] eqn:Hv; cbn.
  - pose proof (lookup_lt_Some _ _ _ Hv) as Hlt.
    rewrite lookup_seq_lt by done. cbn. f_equal. by apply call_linear_knot.
  - apply lookup_ge_None in Hv. rewrite lookup_seq_ge by done. done.
Qed.

Lemma searchsorted_all l q :
  Forall (fun e => numpy.less e q = true) l ->
  numpy.searchsorted l q = length l.
Proof.
  induction 1 as [|e l He _ IH]; [done|].
  cbn [numpy.searchsorted]. rewrite He. simpl. by rewrite IH.
Qed.

(** In an increasing list every entry is the last one or below it. *)
Lemma increasing_below_last l (i : nat) e cn :
  increasing l = true -> l !! i = Some e -> last l = Some cn ->
  e = cn \/ SFltb e cn = true.
Proof.
  intros Hi He Hn. rewrite last_lookup in Hn.
  pose proof (lookup_lt_Some _ _ _ He) as Hlt.
  destruct (decide (i = Nat.pred (length l))) as [->|Hne].
  { left. congruence. }
  right. revert i He Hlt Hne. induction l as [|a l IH]; intros i He Hlt Hne;
    [done|].
  destruct i as [|i].
  - injection He as ->. pose proof (increasing_head _ _ Hi) as Hall.
    rewrite Forall_forall in Hall. apply Hall.
    destruct l as [|b l]; [simpl in *; lia|].
    eapply list_elem_of_lookup_2. exact Hn.
  - destruct l as [|b l]; [done|].
    apply (IH (increasing_tail _ _ Hi) Hn i); [done|simpl in *; lia..].
Qed.

(** Outside its knots the interpolant follows its first or last segment. *)
Lemma call_linear_below cs xs q c0 :
  (2 <= length cs)%nat -> head cs = Some c0 -> SFltb q c0 = true ->
  scipy.call_linear {| scipy.interp_x := cs; scipy.interp_y := xs |} q
  = segment_line cs xs 0 q.
Proof.
  intros H2 Hc0 Hq. unfold scipy.call_linear, segment_line.
  cbn [scipy.interp_x scipy.interp_y].
  assert (numpy.searchsorted cs q = 0%nat) as ->.
  { destruct cs as [|c cs']; [done|]. injection Hc0 as ->.
    cbn [numpy.searchsorted]. by rewrite (less_asym _ _ (less_lt _ _ Hq)). }
  replace (Z.min (Z.max (Z.of_nat 0) 1) (Z.of_nat (length cs) - 1))
    with (Z.of_nat 1) by lia.
  change (Z.of_nat 1 - 1) with (Z.of_nat 0).
  by rewrite !item_nat.
Qed.

Lemma call_linear_above cs xs q cn :
  increasing cs = true -> (2 <= length cs)%nat ->
  last cs = Some cn -> SFltb cn q = true ->
  scipy.call_linear {| scipy.interp_x := cs; scipy.interp_y := xs |} q
  = segment_line cs xs (length cs - 2) q.
Proof.
  intros Hi H2 Hcn Hq. unfold scipy.call_linear, segment_line.
  cbn [scipy.interp_x scipy.interp_y].
  rewrite searchsorted_all; cycle 1.
  { apply Forall_forall. intros e He.
    apply list_elem_of_lookup in He as [i Hie]. apply less_lt.
    destruct (increasing_below_last _ _ _ _ Hi Hie Hcn) as [->|Hlt]; [done|].
    by apply SFltb_trans with cn. }
  replace (Z.min (Z.max (Z.of_nat (length cs)) 1) (Z.of_nat (length cs) - 1))
    with (Z.of_nat (S (length cs - 2))) by lia.
  replace (Z.of_nat (S (length cs - 2)) - 1)
    with (Z.of_nat (length cs - 2)) by lia.
  by rewrite !item_nat.
Qed.

Lemma increasing_adjacent l (i : nat) (a b : float64) :
  increasing l = true -> l !! i = Some a -> l !! S i = Some b ->
  SFltb a b = true.
Proof.
  revert i; induction l as [|e l IH]; intros i Hi Ha Hb; [done|].
  destruct i as [|i].
  - injection Ha as ->. destruct l as [|e' l]; [done|]. injection Hb as ->.
    rewrite increasing_cons in Hi. by apply andb_true_iff in Hi as [Hab _].
  - apply (IH i); [by eapply increasing_tail|done..].
Qed.

(** An increasing list of at least two entries does not end in NaN. *)
Lemma increasing_last_not_nan l v :
  increasing l = true -> (2 <= length l)%nat -> last l = Some v ->
  v <> nan.
Proof.
  intros Hi H2 Hv. rewrite last_lookup in Hv.
  destruct (lookup_lt_is_Some_2 l (length l - 2)) as [u Ha]; [lia|].
  replace (Nat.pred (length l)) with (S (length l - 2)) in Hv by lia.
  pose proof (increasing_adjacent _ _ _ _ Hi Ha Hv) as Hlt.
  intros ->. by destruct u.
Qed.

End Float64Order.

(** ** binary64: rounding and repeated values *)

Module Float64Rounding.
Import Binary64 Float64Examples.



End Float64Rounding.

(** ** binary64: a distribution transformed by its own mapping *)

Module Float64Identity.
Import Binary64 Float64Examples Float64Order.
Implicit Types (w : world float64) (x cdf pdf dep r : ref).
Implicit Types (xa ca pa da a : ndarray float64) (v t l : float64).



End Float64Identity.

(** ** binary64: rescaling the PDF by a power of two *)

Section FitFromPdfReturns.
Context {F : Type} `{Number F}.
Implicit Types (w : world F) (x cdf pdf dep r : ref).
Implicit Types (xa ca pa da a : ndarray F).

(** A fit from a PDF with at least two samples returns. *)
Lemma fit_from_pdf_returns w x pdf xa pa :
  heap w !! x = Some xa -> heap w !! pdf = Some pa ->
  wf_array xa -> wf_array pa -> shapes_ok xa pa = true ->
  (2 <= length (data pa))%nat ->
  let c := pdf_to_cdf (data pa) (data xa) in
  exists v,
    last (data c) = Some v
    /\ fit_from_pdf x pdf w
       = (Ok tt,
          {| self := {| _cdf_map :=
                          Some (scipy.sorted_interp1d
                                  (data (fitted_cdf c v)) (data xa)) |};
             heap := heap w ++ [fitted_cdf c v] |}).
Proof.
  intros Hx Hp Hwx Hwp Hs H2 c.
  pose proof (shapes_ok_lengths _ _ Hwx Hwp Hs) as Hl.
  assert (data pa <> []) as Hne by (destruct (data pa); [simpl in *; lia|done]).
  pose proof (lookup_lt_Some _ _ _ Hx) as Hxlt.
  destruct (shapes_ok_true _ _ Hs) as [Hnd Hsh].
  assert (length (data c) = length (data pa)) as Hlc
    by by apply length_pdf_to_cdf.
  destruct (last (data c)) as [v|] eqn:Hv; cycle 1.
  { apply last_None in Hv. rewrite Hv in Hlc. simpl in Hlc. lia. }
  exists v. split; [done|].
  rewrite (fit_from_pdf_run w x pdf xa pa Hx Hp Hs Hl Hne). fold c.
  set (w0 := {| self := self w; heap := heap w ++ [c] |}).
  assert (heap w0 !! x = Some xa) as Hx0 by (by apply lookup_app_l_Some).
  assert (heap w0 !! length (heap w) = Some c) as Hc0 by apply lookup_alloc.
  assert (shape c = shape xa) as Hshc.
  { unfold c, pdf_to_cdf. cbn [shape divided array].
    rewrite (wf_array_1d xa Hwx Hnd). f_equal.
    unfold scipy.cumtrapz. cbn [length].
    rewrite length_cumsum, length_trapezoids by done. lia. }
  assert (shapes_ok xa c = true) as Hs0.
  { unfold shapes_ok. rewrite Hnd, Hshc. cbn. by apply bool_decide_eq_true. }
  assert (length (data xa) = length (data c)) as Hl0 by congruence.
  rewrite (fit_from_cdf_ok w0 x (length (heap w)) xa c v Hx0 Hc0 Hs0 Hv Hl0).
  cbn zeta. rewrite decide_False by lia.
  subst w0. cbn [heap]. by rewrite insert_alloc.
Qed.

End FitFromPdfReturns.

Module Float64Scaling.
Import Binary64 Float64Examples.

(** *** Digits *)






(** *** Shifting to the right *)






(** *** Rounding, stage by stage *)

Local Abbreviation stage m e l := (shr_fexp prec emax m e l).
Local Abbreviation rounded p :=
  (round_nearest_even (shr_m (fst p)) (loc_of_shr_record (fst p))).













(** *** The operations of the integration *)












(** *** Multiplying by a power of two *)








(** *** The integration and the normalisation *)









Implicit Types (w : world float64) (x cdf pdf dep r : ref).
Implicit Types (xa ca pa da a : ndarray float64).



End Float64Scaling.

(** ** Further properties of the four methods *)

(** *** The instance and the store *)

Section StateOfTheInstance.
Context {F : Type} `{Number F}.
Implicit Types (w : world F) (x cdf pdf dep r : ref).
Implicit Types (xa ca pa da a : ndarray F) (m : InversePIT F).

(** A fit either returns, having set [_cdf_map], or leaves the instance as
    it was: the assignment is its last statement. *)
Lemma fit_from_cdf_self w x cdf :
  match fst (fit_from_cdf x cdf w) with
  | Ok _ => _cdf_map (self (snd (fit_from_cdf x cdf w))) <> None
  | _ => self (snd (fit_from_cdf x cdf w)) = self w
  end.
Proof.
  munfold. repeat (case_match; simplify_eq/=); eauto.
Qed.

Lemma fit_from_pdf_self w x pdf :
  match fst (fit_from_pdf x pdf w) with
  | Ok _ => _cdf_map (self (snd (fit_from_pdf x pdf w))) <> None
  | _ => self (snd (fit_from_pdf x pdf w)) = self w
  end.
Proof.
  unfold fit_from_pdf.
  unfold getitem_last, idiv, mbind, M_bind, bind, deref, assert_, lift, alloc,
    store, ret, raise.
  repeat (case_match; simplify_eq/=); eauto.
  all: match goal with
       | |- context [fit_from_cdf ?x ?c ?w1] =>
           pose proof (fit_from_cdf_self w1 x c) as Hc
       end.
  all: destruct (fit_from_cdf _ _ _) as [[] ?]; cbn in *; done.
Qed.

(** X1. Arrays without entries. For one-dimensional [x] and [dep] of one
    shape, [dep] without entries: [fit_from_cdf] raises IndexError (from
    [cdf[-1]]), [fit_from_pdf] and [transform_pdf] raise ValueError (from
    [cumulative_trapezoid], which wants at least one point; for
    [transform_pdf] whether or not the instance is fitted). None of them
    changes the instance or an array. *)
Theorem empty_input w x dep xa da :
  heap w !! x = Some xa -> heap w !! dep = Some da ->
  ndim xa = 1%nat -> shape xa = shape da -> data da = [] ->
  fit_from_cdf x dep w = (Raise IndexError, w)
  /\ fit_from_pdf x dep w = (Raise ValueError, w)
  /\ transform_pdf x dep w = (Raise ValueError, w).
Proof.
  intros Hx Hd Hn Hs He.
  assert (shapes_ok xa da = true) as Hok.
  { unfold shapes_ok. rewrite Hn, Hs. cbn. by apply bool_decide_eq_true. }
  assert (ndim da = 1%nat) as Hnd by (unfold ndim in *; congruence).
  split; [|split].
  - by eapply fit_from_cdf_empty.
  - unfold fit_from_pdf.
    rewrite (bind_ok _ _ _ _ _ (deref_ok _ _ _ Hx)).
    rewrite (bind_ok _ _ _ _ _ (deref_ok _ _ _ Hd)).
    rewrite Hok.
    erewrite bind_ok by reflexivity.
    apply integrate_raises. by rewrite He.
  - unfold transform_pdf.
    rewrite (bind_ok _ _ _ _ _ (deref_ok _ _ _ Hx)).
    rewrite (bind_ok _ _ _ _ _ (deref_ok _ _ _ Hd)).
    rewrite Hn, Hnd. cbn [Nat.eqb andb negb].
    apply integrate_raises. by rewrite He.
Qed.

(** X3. A fit is all or nothing for the instance. Whatever the arguments,
    [fit_from_cdf] and [fit_from_pdf] either return, and then the instance
    holds a mapping, or they do not return, and then the instance is what it
    was before the call: an earlier mapping stays in place, an unfitted
    instance stays unfitted. *)
Theorem fit_is_all_or_nothing w x dep :
  (fst (fit_from_cdf x dep w) = Ok tt
   /\ _cdf_map (self (snd (fit_from_cdf x dep w))) <> None
   \/ fst (fit_from_cdf x dep w) <> Ok tt
      /\ self (snd (fit_from_cdf x dep w)) = self w)
  /\ (fst (fit_from_pdf x dep w) = Ok tt
      /\ _cdf_map (self (snd (fit_from_pdf x dep w))) <> None
      \/ fst (fit_from_pdf x dep w) <> Ok tt
         /\ self (snd (fit_from_pdf x dep w)) = self w).
Proof.
  split.
  - pose proof (fit_from_cdf_self w x dep) as Hs.
    destruct (fst (fit_from_cdf x dep w)) as [[]| |]; [left|right..]; done.
  - pose proof (fit_from_pdf_self w x dep) as Hs.
    destruct (fst (fit_from_pdf x dep w)) as [[]| |]; [left|right..]; done.
Qed.

Lemma fit_from_cdf_forgets m1 m2 (h : list (ndarray F)) x cdf :
  let r1 := fit_from_cdf x cdf {| self := m1; heap := h |} in
  let r2 := fit_from_cdf x cdf {| self := m2; heap := h |} in
  fst r1 = fst r2 /\ heap (snd r1) = heap (snd r2)
  /\ (fst r1 = Ok tt -> self (snd r1) = self (snd r2)).
Proof.
  munfold. cbn [heap self]. repeat (case_match; simplify_eq/=); done.
Qed.

Lemma fit_from_pdf_forgets m1 m2 (h : list (ndarray F)) x pdf :
  let r1 := fit_from_pdf x pdf {| self := m1; heap := h |} in
  let r2 := fit_from_pdf x pdf {| self := m2; heap := h |} in
  fst r1 = fst r2 /\ heap (snd r1) = heap (snd r2)
  /\ (fst r1 = Ok tt -> self (snd r1) = self (snd r2)).
Proof.
  unfold fit_from_pdf.
  unfold getitem_last, idiv, mbind, M_bind, bind, deref, assert_, lift, alloc,
    store, ret, raise.
  cbn [heap self]. repeat (case_match; simplify_eq/=); try done.
  all: apply fit_from_cdf_forgets.
Qed.

(** X4. A fit overwrites. What [fit_from_cdf] and [fit_from_pdf] do - the
    outcome, the arrays afterwards and, when they return, the mapping they
    install - does not depend on the mapping of an earlier fit. *)
Theorem refit_forgets_the_old_mapping m1 m2 (h : list (ndarray F)) x dep :
  (let r1 := fit_from_cdf x dep {| self := m1; heap := h |} in
   let r2 := fit_from_cdf x dep {| self := m2; heap := h |} in
   fst r1 = fst r2 /\ heap (snd r1) = heap (snd r2)
   /\ (fst r1 = Ok tt -> self (snd r1) = self (snd r2)))
  /\ (let r1 := fit_from_pdf x dep {| self := m1; heap := h |} in
      let r2 := fit_from_pdf x dep {| self := m2; heap := h |} in
      fst r1 = fst r2 /\ heap (snd r1) = heap (snd r2)
      /\ (fst r1 = Ok tt -> self (snd r1) = self (snd r2))).
Proof.
  split; [apply fit_from_cdf_forgets | apply fit_from_pdf_forgets].
Qed.

Lemma transform_cdf_self w x cdf :
  self (snd (transform_cdf x cdf w)) = self w.
Proof. munfold. repeat (case_match; simplify_eq/=); done. Qed.

Lemma transform_pdf_self w x pdf :
  self (snd (transform_pdf x pdf w)) = self w.
Proof.
  unfold transform_pdf. unfold transform_cdf, getitem_last, idiv.
  unfold mbind, M_bind, bind, deref, get_cdf_map, assert_, lift, alloc,
    store, ret, raise, stuck.
  repeat (case_match; simplify_eq/=); done.
Qed.

(** X5. The transformations do not touch the instance: after
    [transform_cdf] and after [transform_pdf], whatever the arguments and
    whatever the outcome, [_cdf_map] is what it was. *)
Theorem transforms_keep_the_mapping w x dep :
  self (snd (transform_cdf x dep w)) = self w
  /\ self (snd (transform_pdf x dep w)) = self w.
Proof. split; [apply transform_cdf_self | apply transform_pdf_self]. Qed.

(** X6. [transform_cdf] can be repeated: when a call returns, the same
    call made again returns as well, with the same [cdf] as second component
    and, as first, another new array with the contents of the first one,
    which is left as it was. *)
Theorem transform_cdf_repeats w x cdf x1 c1 w1 :
  transform_cdf x cdf w = (Ok (x1, c1), w1) ->
  exists x2 w2,
    transform_cdf x cdf w1 = (Ok (x2, cdf), w2)
    /\ x2 <> x1
    /\ read w2 x2 = read w1 x1
    /\ read w2 x1 = read w1 x1.
Proof.
  intros Hrun.
  destruct (_cdf_map (self w)) as [f|] eqn:Hf; cycle 1.
  { by rewrite transform_cdf_unfitted in Hrun. }
  destruct (heap w !! cdf) as [ca|] eqn:Hc; cycle 1.
  { revert Hrun. munfold. by rewrite Hf, Hc. }
  rewrite (transform_cdf_fitted _ _ _ _ _ Hf Hc) in Hrun.
  injection Hrun as <- <- <-.
  eexists _, _. split; [|split; [|split]].
  - eapply transform_cdf_fitted; [exact Hf|].
    cbn [heap]. rewrite lookup_app_l; [exact Hc|]. by eapply lookup_lt_Some.
  - cbn [heap]. rewrite length_app. simpl. lia.
  - unfold read. cbn [heap]. rewrite !lookup_alloc. done.
  - unfold read. cbn [heap]. rewrite lookup_app_l, lookup_alloc; [done|].
    rewrite length_app. simpl. lia.
Qed.

(** X2. [transform_pdf] on one-dimensional [x] and [pdf] of different
    lengths, [x] not empty, raises ValueError (from [cumulative_trapezoid])
    and changes nothing, on a fitted instance as on one that is not. *)
Theorem transform_pdf_length_mismatch w x pdf xa pa :
  heap w !! x = Some xa -> heap w !! pdf = Some pa ->
  ndim xa = 1%nat -> ndim pa = 1%nat ->
  (0 < length (data xa))%nat -> length (data xa) <> length (data pa) ->
  transform_pdf x pdf w = (Raise ValueError, w).
Proof. apply transform_pdf_mismatch. Qed.
(** X7. [transform_pdf] is [transform_cdf] between an integration and a
    differentiation. On a fitted instance, for one-dimensional [x] and [pdf]
    of the same length, at least 3: [transform_pdf] returns; its first
    output has the contents [nx] that [transform_cdf] returns for the
    normalised cumulative integral [c] of [pdf] over [x] (the spec's
    trapezoidal CDF); and its second output is [np.gradient(c, nx,
    edge_order=2)]. *)
Theorem transform_pdf_composes w f x pdf xa pa :
  _cdf_map (self w) = Some f ->
  heap w !! x = Some xa -> heap w !! pdf = Some pa ->
  ndim xa = 1%nat -> ndim pa = 1%nat ->
  length (data xa) = length (data pa) -> (3 <= length (data pa))%nat ->
  let c := spec_normalised_cdf (data pa) (data xa) in
  let cdf := length (heap w) in
  exists x' pdf' w' xc wc nx g,
    transform_pdf x pdf w = (Ok (x', pdf'), w')
    /\ transform_cdf x cdf {| self := self w; heap := heap w ++ [array c] |}
       = (Ok (xc, cdf), wc)
    /\ read wc xc = Some nx /\ read w' x' = Some nx
    /\ numpy.gradient c nx = Ok g /\ read w' pdf' = Some g.
Proof.
  intros Hf Hx Hp Hnx Hnp Hl H3 c cdf.
  assert (data pa <> []) as Hne by (destruct (data pa); [simpl in *; lia|done]).
  pose proof (transform_pdf_run w f x pdf xa pa Hf Hx Hp Hnx Hnp Hl Hne) as Hrun.
  cbn zeta in Hrun. rewrite pdf_to_cdf_spec in Hrun by done.
  fold c in Hrun. cbn [data array shape] in Hrun.
  destruct (gradient_ok c (scipy.call f c)) as [g Hg].
  { rewrite length_call. done. }
  { unfold c, spec_normalised_cdf. by rewrite length_fmap, length_seq. }
  rewrite Hg in Hrun.
  eexists _, _, _, _, _, (scipy.call f c), g.
  split; [exact Hrun|]. split.
  { eapply transform_cdf_fitted; [exact Hf|]. cbn [heap]. apply lookup_alloc. }
  unfold read. cbn [heap self]. repeat split.
  - fold cdf. replace cdf with (length (heap w)) by done.
    by rewrite lookup_alloc.
  - rewrite lookup_app_l.
    + replace (S (length (heap w))) with (length (heap w ++ [array c])).
      * by rewrite lookup_alloc.
      * rewrite length_app. simpl. lia.
    + rewrite !length_app. simpl. lia.
  - done.
  - replace (S (S (length (heap w))))
      with (length ((heap w ++ [array c])
                    ++ [{| shape := [length c]; data := scipy.call f c |}])).
    + by rewrite lookup_alloc.
    + rewrite !length_app. simpl. lia.
Qed.

End StateOfTheInstance.

(** *** The knots of the mapping *)

Section Knots.
Context {F : Type} `{Number F}.

(** Sorting the knots keeps every pair. *)
Lemma insert_knot_perm (p : F * F) l : scipy.insert_knot p l ≡ₚ p :: l.
Proof.
  induction l as [|q l IH]; [done|]. simpl.
  destruct (numpy.less (fst q) (fst p)); [|done].
  rewrite IH. apply Permutation_swap.
Qed.

Lemma sort_knots_perm (l : list (F * F)) : scipy.sort_knots l ≡ₚ l.
Proof.
  induction l as [|p l IH]; [done|]. simpl.
  rewrite insert_knot_perm. by rewrite IH.
Qed.

Lemma sorted_interp1d_knots (xs ys : list F) :
  zip (scipy.interp_x (scipy.sorted_interp1d xs ys))
      (scipy.interp_y (scipy.sorted_interp1d xs ys))
  = scipy.sort_knots (zip xs ys).
Proof. unfold scipy.sorted_interp1d. cbn. apply zip_fst_snd. Qed.

(** Where [less] is asymmetric, the insertion keeps a sorted list sorted. *)
Local Abbreviation ordered l :=
  (forall (i : nat) (a b : F * F), l !! i = Some a -> l !! S i = Some b ->
     numpy.less (fst b) (fst a) = false).

Hypothesis less_asymmetric :
  forall a b : F, numpy.less a b = true -> numpy.less b a = false.

Lemma ordered_cons p q l :
  numpy.less (fst q) (fst p) = false -> ordered (q :: l) -> ordered (p :: q :: l).
Proof.
  intros Hpq Hl [|i] a b Ha Hb; simplify_eq/=; [done|]. by eapply Hl.
Qed.

Lemma ordered_tail p l : ordered (p :: l) -> ordered l.
Proof. intros Hl i a b Ha Hb. by apply (Hl (S i)). Qed.

Lemma insert_knot_ordered p l : ordered l -> ordered (scipy.insert_knot p l).
Proof.
  induction l as [|q l IH]; intros Hl.
  - intros [|i] a b Ha Hb; simplify_eq/=.
  - simpl. destruct (numpy.less (fst q) (fst p)) eqn:Hqp.
    + specialize (IH (ordered_tail _ _ Hl)).
      destruct l as [|r l].
      * simpl. apply ordered_cons; [by apply less_asymmetric|].
        intros [|i] a b Ha Hb; simplify_eq/=.
      * simpl in *. destruct (numpy.less (fst r) (fst p)) eqn:Hrp.
        -- apply ordered_cons; [|done]. by apply (Hl 0%nat).
        -- apply ordered_cons; [by apply less_asymmetric|done].
    + by apply ordered_cons.
Qed.

Lemma sort_knots_ordered l : ordered (scipy.sort_knots l).
Proof.
  induction l as [|p l IH]; simpl.
  - intros [|i] a b Ha Hb; simplify_eq/=.
  - by apply insert_knot_ordered.
Qed.
End Knots.

(** *** binary64: fitting again, and the order of the knots *)

Module Float64Extras.
Import Binary64 Float64Examples Float64Fit Float64Order.
Implicit Types (w : world float64) (x cdf pdf dep r : ref).
Implicit Types (xa ca pa da a : ndarray float64) (v t l : float64).

(** X8. Fitting twice is fitting once. In binary64, after
    [fit_from_cdf(x, cdf)] on arrays of one shape with at least two entries
    and a [cdf] whose last entry is finite and not zero, the same call made
    again returns and changes nothing: neither the arrays ([cdf] was
    normalised by the first call, and now ends at exactly 1) nor the
    mapping. *)
Theorem refit_changes_nothing w x cdf xa ca v :
  heap w !! x = Some xa -> heap w !! cdf = Some ca ->
  shapes_ok xa ca = true ->
  length (data xa) = length (data ca) -> (2 <= length (data ca))%nat ->
  last (data ca) = Some v -> finite_nonzero v = true ->
  exists w1,
    fit_from_cdf x cdf w = (Ok tt, w1)
    /\ fit_from_cdf x cdf w1 = (Ok tt, w1).
Proof.
  intros Hx Hc Hok Hlen Hn Hv Hfin.
  pose proof (lookup_lt_Some _ _ _ Hc) as Hlt.
  set (ca1 := fitted_cdf ca v).
  set (xa1 := if decide (x = cdf) then ca1 else xa).
  eexists. split.
  { by apply (fit_from_cdf_ok w x cdf xa ca v). }
  fold ca1 xa1.
  destruct (fitted_cdf_last ca v Hv) as (l & Hl & Hclose). fold ca1 in Hl.
  rewrite Hfin in Hclose.
  assert (shape ca1 = shape ca) as Hsh.
  { unfold ca1, fitted_cdf. by destruct (numpy.isclose v one). }
  assert (length (data ca1) = length (data ca)) as Hlen1
    by apply length_fitted_cdf.
  assert (fitted_cdf ca1 l = ca1) as Hfix.
  { unfold fitted_cdf at 1. by rewrite Hclose. }
  set (w1 := {| self := _; heap := _ |}).
  assert (heap w1 !! cdf = Some ca1) as Hc1.
  { subst w1. cbn [heap]. by apply list_lookup_insert_eq. }
  assert (heap w1 !! x = Some xa1) as Hx1.
  { subst w1 xa1. cbn [heap]. destruct (decide (x = cdf)) as [->|Hne].
    - by apply list_lookup_insert_eq.
    - by rewrite list_lookup_insert_ne. }
  assert (shapes_ok xa1 ca1 = true) as Hok1.
  { apply shapes_ok_true in Hok as [Hnd Hs]. unfold shapes_ok.
    subst xa1. destruct (decide (x = cdf)) as [->|Hne].
    - assert (xa = ca) by congruence. subst xa.
      unfold ndim in *. rewrite Hsh, Hnd. cbn. by apply bool_decide_eq_true.
    - rewrite Hnd, Hsh. cbn. by apply bool_decide_eq_true. }
  assert (length (data xa1) = length (data ca1)) as Hlen2.
  { subst xa1. destruct (decide (x = cdf)); congruence. }
  rewrite (fit_from_cdf_ok w1 x cdf xa1 ca1 l Hx1 Hc1 Hok1 Hl Hlen2).
  rewrite Hfix. f_equal. subst w1. cbn [heap self]. f_equal.
  - do 3 f_equal. subst xa1. by destruct (decide (x = cdf)).
  - by rewrite list_insert_insert_eq.
Qed.

(** X9. The mapping holds every pair, sorted. In binary64, after
    [fit_from_cdf(x, cdf)] on arrays of one shape with at least two entries,
    whatever their values: the knots of the installed mapping are the pairs
    (entry of [cdf] as left by the fit, entry of [x]), each as often as it
    occurs, in an order in which no abscissa is followed by one that sorts
    before it (numbers ascending, NaN last). *)
Theorem mapping_knots_are_sorted w x cdf xa ca v :
  heap w !! x = Some xa -> heap w !! cdf = Some ca ->
  shapes_ok xa ca = true ->
  length (data xa) = length (data ca) -> (2 <= length (data ca))%nat ->
  last (data ca) = Some v ->
  exists w1 f used xa1,
    fit_from_cdf x cdf w = (Ok tt, w1)
    /\ _cdf_map (self w1) = Some f
    /\ heap w1 !! cdf = Some used /\ heap w1 !! x = Some xa1
    /\ zip (scipy.interp_x f) (scipy.interp_y f)
       ≡ₚ zip (data used) (data xa1)
    /\ (forall (i : nat) (c1 c2 : float64),
          scipy.interp_x f !! i = Some c1 ->
          scipy.interp_x f !! S i = Some c2 ->
          numpy.less c2 c1 = false).
Proof.
  intros Hx Hc Hok Hlen Hn Hv.
  pose proof (lookup_lt_Some _ _ _ Hc) as Hlt.
  set (ca1 := fitted_cdf ca v).
  set (xa1 := if decide (x = cdf) then ca1 else xa).
  eexists _, _, ca1, xa1. split; [|split; [|split; [|split; [|split]]]].
  - by apply (fit_from_cdf_ok w x cdf xa ca v).
  - reflexivity.
  - cbn [heap]. by apply list_lookup_insert_eq.
  - cbn [heap]. subst xa1. destruct (decide (x = cdf)) as [->|Hne].
    + by apply list_lookup_insert_eq.
    + by rewrite list_lookup_insert_ne.
  - fold ca1 xa1. rewrite sorted_interp1d_knots. apply sort_knots_perm.
  - fold ca1 xa1. intros i c1 c2 Ha Hb.
    unfold scipy.sorted_interp1d in Ha, Hb. cbn [scipy.interp_x] in Ha, Hb.
    rewrite list_lookup_fmap in Ha, Hb.
    destruct (scipy.sort_knots _ !! i) as [p|] eqn:Hp; [|done].
    destruct (scipy.sort_knots _ !! S i) as [q|] eqn:Hq; [|done].
    simplify_eq/=.
    by eapply (sort_knots_ordered less_asym).
Qed.

(** X10. Outside the fitted range the mapping extrapolates. In binary64,
    after [fit_from_cdf(x, cdf)] on arrays of one shape, in two different
    arrays, with at least two entries and a [cdf] that is strictly increasing
    as the fit leaves it: [transform_cdf] returns for every array of
    probabilities; an entry [q] below the first fitted [cdf] value is mapped
    along the line through the first two knots, and one above the last value
    along the line through the last two,
    [(x[lo+1] - x[lo]) / (cdf[lo+1] - cdf[lo]) * (q - cdf[lo]) + x[lo]] with
    [lo = 0] and [lo = len(x) - 2]: nothing is clamped to [x[0]] or
    [x[-1]], and nothing is raised. *)
Theorem transform_cdf_extrapolates w x cdf xa ca v :
  heap w !! x = Some xa -> heap w !! cdf = Some ca -> x <> cdf ->
  shapes_ok xa ca = true ->
  length (data xa) = length (data ca) -> (2 <= length (data ca))%nat ->
  last (data ca) = Some v ->
  increasing (data (fitted_cdf ca v)) = true ->
  exists w1 c0 cn,
    fit_from_cdf x cdf w = (Ok tt, w1)
    /\ heap w1 !! cdf = Some (fitted_cdf ca v)
    /\ head (data (fitted_cdf ca v)) = Some c0
    /\ last (data (fitted_cdf ca v)) = Some cn
    /\ forall r qa, heap w1 !! r = Some qa ->
         exists x' w2 out,
           transform_cdf x r w1 = (Ok (x', r), w2)
           /\ heap w2 !! x' = Some out
           /\ forall (i : nat) q, data qa !! i = Some q ->
                (SFltb q c0 = true ->
                 data out !! i
                 = Some (segment_line (data (fitted_cdf ca v)) (data xa) 0 q))
                /\ (SFltb cn q = true ->
                    data out !! i
                    = Some (segment_line (data (fitted_cdf ca v)) (data xa)
                              (length (data xa) - 2) q)).
Proof.
  intros Hx Hc Hne Hs Hl H2 Hv Hi.
  pose proof (fit_from_cdf_ok _ _ _ _ _ _ Hx Hc Hs Hv Hl) as Hfit.
  cbn zeta in Hfit. rewrite decide_False in Hfit by done.
  set (used := fitted_cdf ca v) in *.
  assert (length (data used) = length (data ca)) as Hlu
    by apply length_fitted_cdf.
  rewrite sorted_interp1d_increasing in Hfit by (done || congruence).
  destruct (head (data used)) as [c0|] eqn:Hc0; cycle 1.
  { destruct (data used); [simpl in *; lia|done]. }
  destruct (last (data used)) as [cn|] eqn:Hcn; cycle 1.
  { apply last_None in Hcn. rewrite Hcn in Hlu. simpl in *; lia. }
  eexists _, c0, cn. split; [exact Hfit|]. split.
  { cbn [heap]. apply list_lookup_insert_eq. by eapply lookup_lt_Some. }
  do 2 (split; [done|]).
  intros r qa Hr. eexists _, _, _. split.
  { by eapply transform_cdf_fitted. }
  split; [cbn [heap]; apply lookup_alloc|].
  intros i q Hq. cbn [data]. unfold scipy.call.
  rewrite list_lookup_fmap, Hq. cbn [fmap option_fmap option_map]. split.
  - intros Hlt. f_equal. apply (call_linear_below _ _ _ c0); [lia|done..].
  - intros Hlt. f_equal. rewrite Hl, <- Hlu.
    by apply (call_linear_above _ _ _ cn); [|lia|..].
Qed.

(** X11. A PDF sent through its own mapping. In binary64, for
    one-dimensional [x] and [pdf] of one shape with at least 3 entries whose
    normalised cumulative integral [c] is strictly increasing:
    [fit_from_pdf(x, pdf)] returns, and [transform_pdf(x, pdf)] on the fitted
    instance returns; its first output holds, at [i], the interpolation
    formula at the knot [c[i]] itself ([x[i]] before rounding), its second
    output is [np.gradient] of [c] against that first output, and [x] is
    left as it was. *)
Theorem fit_from_pdf_then_transform_pdf w x pdf xa pa :
  heap w !! x = Some xa -> heap w !! pdf = Some pa ->
  wf_array xa -> wf_array pa -> shapes_ok xa pa = true ->
  (3 <= length (data pa))%nat ->
  increasing (data (pdf_to_cdf (data pa) (data xa))) = true ->
  let c := data (pdf_to_cdf (data pa) (data xa)) in
  let nx := round_trip_entry c (data xa) <$> seq 0 (length (data xa)) in
  exists w1 x' pdf' w2 g,
    fit_from_pdf x pdf w = (Ok tt, w1)
    /\ transform_pdf x pdf w1 = (Ok (x', pdf'), w2)
    /\ read w2 x' = Some nx
    /\ numpy.gradient c nx = Ok g /\ read w2 pdf' = Some g
    /\ read w2 x = Some (data xa).
Proof.
  intros Hx Hp Hwx Hwp Hs H3 Hi c nx.
  pose proof (shapes_ok_lengths _ _ Hwx Hwp Hs) as Hl.
  assert (data pa <> []) as Hne by (destruct (data pa); [simpl in *; lia|done]).
  destruct (shapes_ok_true _ _ Hs) as [Hnd Hsh].
  assert (ndim pa = 1%nat) as Hndp by (unfold ndim in *; congruence).
  assert (length c = length (data pa)) as Hlc by by apply length_pdf_to_cdf.
  destruct (fit_from_pdf_returns w x pdf xa pa Hx Hp Hwx Hwp Hs ltac:(lia))
    as (v & Hv & Hfit).
  (* the normalised CDF ends at exactly 1 *)
  assert (v = f_one) as ->.
  { pose proof (increasing_last_not_nan _ _ Hi ltac:(fold c; lia) Hv) as Hnan.
    destruct (last (scipy.cumtrapz (data pa) (data xa))) as [t|] eqn:Ht.
    - rewrite (last_pdf_to_cdf _ _ _ Ht) in Hv. injection Hv as <-.
      pose proof (div_self t) as Hdiv. cbn [fdiv float64_number] in Hdiv.
      rewrite Hdiv in Hnan |- *. by destruct (finite_nonzero t).
    - apply last_None in Ht. unfold scipy.cumtrapz in Ht. done. }
  assert (fitted_cdf (pdf_to_cdf (data pa) (data xa)) f_one
          = pdf_to_cdf (data pa) (data xa)) as Hfix by reflexivity.
  rewrite Hfix in Hfit.
  rewrite sorted_interp1d_increasing in Hfit by (done || fold c; congruence).
  fold c in Hfit.
  set (f := {| scipy.interp_x := c; scipy.interp_y := data xa |}) in *.
  set (w1 := {| self := {| _cdf_map := Some f |};
                heap := heap w ++ [pdf_to_cdf (data pa) (data xa)] |}) in *.
  assert (heap w1 !! x = Some xa) as Hx1 by (by apply lookup_app_l_Some).
  assert (heap w1 !! pdf = Some pa) as Hp1 by (by apply lookup_app_l_Some).
  pose proof (transform_pdf_run w1 f x pdf xa pa eq_refl Hx1 Hp1 Hnd Hndp Hl Hne)
    as Hrun.
  cbn zeta in Hrun. cbn [data] in Hrun. fold c in Hrun.
  assert (scipy.call f c = nx) as Hcall.
  { subst f nx. rewrite <- sorted_interp1d_increasing by (done || congruence).
    rewrite call_knots by (done || congruence || lia). by rewrite Hlc, Hl. }
  rewrite Hcall in Hrun.
  destruct (gradient_ok c nx) as [g Hg].
  { subst nx. rewrite length_fmap, length_seq. congruence. }
  { lia. }
  rewrite Hg in Hrun. pose proof (lookup_lt_Some _ _ _ Hx1) as Hx1lt.
  clearbody w1.
  eexists _, _, _, _, g. split; [exact Hfit|]. split; [exact Hrun|].
  unfold read. cbn [heap]. split; [|split; [done|split]].
  - rewrite lookup_app_l.
    + replace (S (length (heap w1)))
        with (length (heap w1 ++ [pdf_to_cdf (data pa) (data xa)])).
      * by rewrite lookup_alloc.
      * rewrite length_app. simpl. lia.
    + rewrite !length_app. simpl. lia.
  - replace (S (S (length (heap w1))))
      with (length ((heap w1 ++ [pdf_to_cdf (data pa) (data xa)])
                    ++ [{| shape := shape (pdf_to_cdf (data pa) (data xa));
                           data := nx |}])).
    + by rewrite lookup_alloc.
    + rewrite !length_app. simpl. lia.
  - rewrite !lookup_app_l; [by rewrite Hx1|..];
      rewrite ?length_app; simpl; lia.
Qed.

Lemma empty_input_witness :
  fit_from_cdf 0%nat 1%nat no_samples = (Raise IndexError, no_samples)
  /\ fit_from_pdf 0%nat 1%nat no_samples = (Raise ValueError, no_samples)
  /\ transform_pdf 0%nat 1%nat no_samples = (Raise ValueError, no_samples).
Proof.
  apply (empty_input no_samples 0%nat 1%nat (array []) (array [])); reflexivity.
Defined.

Lemma transform_cdf_repeats_witness :
  exists x2 w2,
    transform_cdf 0%nat 1%nat (snd (transform_cdf 0%nat 1%nat fitted))
    = (Ok (x2, 1%nat), w2)
    /\ x2 <> 8%nat
    /\ read w2 x2 = read (snd (transform_cdf 0%nat 1%nat fitted)) 8%nat
    /\ read w2 8%nat = read (snd (transform_cdf 0%nat 1%nat fitted)) 8%nat.
Proof.
  apply (transform_cdf_repeats fitted 0%nat 1%nat 8%nat 1%nat).
  vm_compute. reflexivity.
Defined.
Lemma transform_pdf_composes_witness :
  let c := spec_normalised_cdf [i64 0; i64 1; i64 2] [i64 0; i64 1; i64 2] in
  exists x' pdf' w' xc wc nx g,
    transform_pdf 0%nat 4%nat fitted = (Ok (x', pdf'), w')
    /\ transform_cdf 0%nat 8%nat
         {| self := self fitted; heap := heap fitted ++ [array c] |}
       = (Ok (xc, 8%nat), wc)
    /\ read wc xc = Some nx /\ read w' x' = Some nx
    /\ numpy.gradient c nx = Ok g /\ read w' pdf' = Some g.
Proof.
  apply (transform_pdf_composes fitted
           (scipy.sorted_interp1d [i64 0; b64 1 (-1); i64 1]
              [i64 0; i64 1; i64 2])
           0%nat 4%nat (array [i64 0; i64 1; i64 2])
           (array [i64 0; i64 1; i64 2]));
    reflexivity.
Defined.

Lemma transform_pdf_length_mismatch_witness :
  transform_pdf 3%nat 4%nat fitted = (Raise ValueError, fitted).
Proof.
  apply (transform_pdf_length_mismatch fitted 3%nat 4%nat
           (array [i64 0; i64 1]) (array [i64 0; i64 1; i64 2]));
    try reflexivity.
  - simpl. lia.
  - discriminate.
Defined.

Lemma refit_changes_nothing_witness :
  exists w1,
    fit_from_cdf 0%nat 3%nat degenerate = (Ok tt, w1)
    /\ fit_from_cdf 0%nat 3%nat w1 = (Ok tt, w1).
Proof.
  apply (refit_changes_nothing degenerate 0%nat 3%nat
           (array [i64 0; i64 1]) (array [i64 1; i64 2]) (i64 2));
    try reflexivity; simpl; lia.
Defined.

Lemma mapping_knots_are_sorted_witness :
  exists w1 f used xa1,
    fit_from_cdf 0%nat 1%nat unsorted = (Ok tt, w1)
    /\ _cdf_map (self w1) = Some f
    /\ heap w1 !! 1%nat = Some used /\ heap w1 !! 0%nat = Some xa1
    /\ zip (scipy.interp_x f) (scipy.interp_y f)
       ≡ₚ zip (data used) (data xa1)
    /\ (forall (i : nat) (c1 c2 : float64),
          scipy.interp_x f !! i = Some c1 ->
          scipy.interp_x f !! S i = Some c2 ->
          numpy.less c2 c1 = false).
Proof.
  apply (mapping_knots_are_sorted unsorted 0%nat 1%nat
           (array [i64 0; i64 1; i64 2; i64 3])
           (array [b64 1 (-1); nan; i64 0; i64 1]) (i64 1));
    try reflexivity; simpl; lia.
Defined.

Lemma transform_cdf_extrapolates_witness :
  exists w1 c0 cn,
    fit_from_cdf 0%nat 3%nat rescaling = (Ok tt, w1)
    /\ heap w1 !! 3%nat = Some (array [i64 0; b64 1 (-1); i64 1])
    /\ head [i64 0; b64 1 (-1); i64 1] = Some c0
    /\ last [i64 0; b64 1 (-1); i64 1] = Some cn
    /\ forall r qa, heap w1 !! r = Some qa ->
         exists x' w2 out,
           transform_cdf 0%nat r w1 = (Ok (x', r), w2)
           /\ heap w2 !! x' = Some out
           /\ forall (i : nat) q, data qa !! i = Some q ->
                (SFltb q c0 = true ->
                 data out !! i
                 = Some (segment_line [i64 0; b64 1 (-1); i64 1]
                           [i64 0; i64 1; i64 2] 0 q))
                /\ (SFltb cn q = true ->
                    data out !! i
                    = Some (segment_line [i64 0; b64 1 (-1); i64 1]
                              [i64 0; i64 1; i64 2] 1 q)).
Proof.
  apply (transform_cdf_extrapolates rescaling 0%nat 3%nat
           (array [i64 0; i64 1; i64 2])
           (array [i64 0; b64 1 (-1); i64 1]) (i64 1));
    try reflexivity; try discriminate.
  simpl. lia.
Defined.

Lemma fit_from_pdf_then_transform_pdf_witness :
  let c := data (pdf_to_cdf [tenth 1; tenth 2; tenth 4] [i64 0; i64 1; i64 2]) in
  let nx := round_trip_entry c [i64 0; i64 1; i64 2] <$> seq 0 3 in
  exists w1 x' pdf' w2 g,
    fit_from_pdf 0%nat 1%nat rescaling = (Ok tt, w1)
    /\ transform_pdf 0%nat 1%nat w1 = (Ok (x', pdf'), w2)
    /\ read w2 x' = Some nx
    /\ numpy.gradient c nx = Ok g /\ read w2 pdf' = Some g
    /\ read w2 0%nat = Some [i64 0; i64 1; i64 2].
Proof.
  apply (fit_from_pdf_then_transform_pdf rescaling 0%nat 1%nat
           (array [i64 0; i64 1; i64 2])
           (array [tenth 1; tenth 2; tenth 4]));
    reflexivity.
Defined.

End Float64Extras.
